(** * Solow model with human capital: the model project

    A shallow embedding of [modelproject/modelproject.py] and the
    properties of its three functions [nullclines], [aevaluation] and
    [capital], followed by the two plotting functions of
    [dataproject/dataproject.py], [figure1] and [figure2].

    Conventions of the embedding:
    - Python locals and function parameters are Rocq binders; a local that
      is re-assigned is re-bound by the monadic bind.
    - numpy arrays are lists, read with [getitem] and updated in place with
      [setitem]; both raise [IndexError] out of range, as numpy does.
    - The module namespace (the names bound at lines 7-16) is an explicit
      state threaded through every call.
    - The arithmetic of the host (Python floats, numpy float64) is an
      interface, [HostMath]: the source only says which operator is applied
      to which operand, not what the operator computes.  Two hosts
      implement it: [binary64], the IEEE 754 numbers the program runs on,
      and [exact], rational arithmetic. *)

From stdpp Require Import base option list strings gmap.
From Stdlib Require Import ZArith QArith Lia PrimFloat.

Local Open Scope Z_scope.

(** A decimal float literal stands for the nearest binary64 number, as it
    does in Python. *)
Set Warnings "-inexact-float".

(** ** Exceptions and results *)

(** The exceptions the modelled code can end with.  [HostError e] is an
    exception [e] raised inside an arithmetic operator of the host. *)
Inductive exn (E : Type) : Type :=
| ValueError
| IndexError
| TypeError
| NameError
| HostError (e : E).
Arguments ValueError {E}.
Arguments IndexError {E}.
Arguments TypeError {E}.
Arguments NameError {E}.
Arguments HostError {E} e.

Inductive result (E A : Type) : Type :=
| Ok (a : A)
| Raise (x : exn E).
Arguments Ok {E A} a.
Arguments Raise {E A} x.

#[global] Instance result_ret {E} : MRet (result E) := λ A a, Ok a.
#[global] Instance result_bind {E} : MBind (result E) := λ A B f m,
  match m with
  | Ok a => f a
  | Raise x => Raise x
  end.

Definition is_host {E} (x : exn E) : Prop :=
  match x with HostError _ => True | _ => False end.

(** ** The host arithmetic *)

(** [of_int] is the coercion Python applies to an [int] literal that meets a
    float; [fadd], [fsub] and [fmul] never raise on floats; true division
    and power may ([ZeroDivisionError], or a floating-point error state set
    to raise), so they return an exception or a number. *)
Class HostMath (F E : Type) : Type := {
  of_int : Z → F;
  fadd : F → F → F;
  fsub : F → F → F;
  fmul : F → F → F;
  fdiv : F → F → E + F;
  fpow : F → F → E + F
}.

Definition host {F E} (r : E + F) : result E F :=
  match r with
  | inl e => Raise (HostError e)
  | inr x => Ok x
  end.

(** ** numpy arrays *)

Section Arrays.
Context {F E : Type} `{!HostMath F E}.

(** [np.zeros(T)]: a negative length is refused. *)
Definition np_zeros (T : Z) : result E (list F) :=
  if bool_decide (T < 0) then Raise ValueError
  else Ok (replicate (Z.to_nat T) (of_int 0)).

(** Position of index [i] in an array of [len] cells; a negative index
    counts from the end. *)
Definition index (len : nat) (i : Z) : result E nat :=
  if bool_decide (0 ≤ i < Z.of_nat len) then Ok (Z.to_nat i)
  else if bool_decide (- Z.of_nat len ≤ i < 0) then Ok (Z.to_nat (Z.of_nat len + i))
  else Raise IndexError.

(** [a[i]] *)
Definition getitem (a : list F) (i : Z) : result E F :=
  j ← index (length a) i;
  match a !! j with
  | Some x => Ok x
  | None => Raise IndexError
  end.

(** [a[i] = x] *)
Definition setitem (a : list F) (i : Z) (x : F) : result E (list F) :=
  j ← index (length a) i;
  Ok (<[j := x]> a).
End Arrays.

(** [range(lo, hi)] *)
Definition range (lo hi : Z) : list Z := seqZ lo (hi - lo).

(** [for t in ts: s = body(t, s)], stopping at the first exception. *)
Fixpoint for_each {E S : Type} (ts : list Z) (body : Z → S → result E S)
    (s : S) : result E S :=
  match ts with
  | [] => Ok s
  | t :: ts' => s' ← body t s; for_each ts' body s'
  end.

(** ** [capital] *)

Section Capital.
Context {F E : Type} `{!HostMath F E}.

(** Lines 93-94, one iteration.  Operands are evaluated left to right,
    each operator as soon as its operands are there. *)
Definition capital_body (s_K s_H n delta alpha phi g : F)
    (t : Z) (kh : list F * list F)
    : result E (list F * list F) :=
  let '(k, h) := kh in
  kp ← getitem k (t - 1);
  p1 ← host (fpow kp alpha);
  hp ← getitem h (t - 1);
  p2 ← host (fpow hp phi);
  kq ← getitem k (t - 1);
  x ← host (fdiv (fadd (fmul (fmul s_K p1) p2) (fmul (fsub (of_int 1) delta) kq))
                 (fadd (fadd (of_int 1) n) g));
  k ← setitem k t x;
  kp ← getitem k (t - 1);
  p1 ← host (fpow kp alpha);
  hp ← getitem h (t - 1);
  p2 ← host (fpow hp phi);
  hq ← getitem h (t - 1);
  y ← host (fdiv (fadd (fmul (fmul s_H p1) p2) (fmul (fsub (of_int 1) delta) hq))
                 (fadd (fadd (of_int 1) n) g));
  h ← setitem h t y;
  Ok (k, h).

Definition capital (s_K s_H n delta alpha phi k0 h0 : F) (T : Z) (g : F)
    : result E (list F * list F) :=
  k ← np_zeros T;
  h ← np_zeros T;
  k ← setitem k 0 k0;
  h ← setitem h 0 h0;
  '(k, h) ← for_each (range 1 T) (capital_body s_K s_H n delta alpha phi g) (k, h);
  Ok (k, h).
End Capital.

(** The update rule of the specification, for one stock [x] with savings
    rate [s]: [(s·k^alpha·h^phi + (1-delta)·x) / (1+n+g)]. *)
Definition update_rule {F E} `{!HostMath F E}
    (s n delta alpha phi g : F) (k h x : F) : result E F :=
  p ← host (fpow k alpha);
  q ← host (fpow h phi);
  host (fdiv (fadd (fmul (fmul s p) q) (fmul (fsub (of_int 1) delta) x))
             (fadd (fadd (of_int 1) n) g)).

(** ** The symbolic layer ([import sympy as sm]) *)

Module sm.
(** Expression trees.  A tree records the operators as the source applies
    them.  sympy keeps a canonical form of it instead (sums and products
    reordered, [1/x] written as a power); what it makes of a tree shows
    where the tree is used, in the answers of [sm.solve] and in the code
    that [sm.lambdify] generates, and both are parameters of the model. *)
Inductive expr : Type :=
| Symbol (name : string)
| Integer (z : Z)
| Add (a b : expr)
| Sub (a b : expr)
| Mul (a b : expr)
| Div (a b : expr)
| Pow (a b : expr).

#[global] Instance expr_eq_dec : EqDecision expr.
Proof. solve_decision. Defined.

Definition symbols (name : string) : expr := Symbol name.

Record equation : Type := Eq { lhs : expr; rhs : expr }.

Section Lambdify.
Context {F E : Type} `{!HostMath F E}.

(** The value bound to parameter [x] in a call whose parameters and
    arguments are paired in [env]. *)
Fixpoint bound (env : list (string * F)) (x : string) : option F :=
  match env with
  | [] => None
  | (y, v) :: env' => if String.eqb x y then Some v else bound env' x
  end.

(** Value of an expression when its symbols are bound as in [env]; an
    unbound symbol is a [NameError]. *)
Fixpoint eval (env : list (string * F)) (e : expr) : result E F :=
  match e with
  | Symbol x =>
      match bound env x with
      | Some v => Ok v
      | None => Raise NameError
      end
  | Integer z => Ok (of_int z)
  | Add a b => x ← eval env a; y ← eval env b; Ok (fadd x y)
  | Sub a b => x ← eval env a; y ← eval env b; Ok (fsub x y)
  | Mul a b => x ← eval env a; y ← eval env b; Ok (fmul x y)
  | Div a b => x ← eval env a; y ← eval env b; host (fdiv x y)
  | Pow a b => x ← eval env a; y ← eval env b; host (fpow x y)
  end.

Definition symbol_name (e : expr) : result E string :=
  match e with
  | Symbol x => Ok x
  | _ => Raise TypeError
  end.

Fixpoint symbol_names (args : list expr) : result E (list string) :=
  match args with
  | [] => Ok []
  | a :: args' => x ← symbol_name a; xs ← symbol_names args'; Ok (x :: xs)
  end.

(** The expression that the code generated for [e] computes: the
    canonical form of [e], its operations in the order in which the code
    generator prints them. *)
Variable generated : expr → expr.

(** [sm.lambdify(args, e)]: a function of as many positional arguments
    as [args] has symbols, which runs the code generated for [e]. *)
Definition lambdify (args : list expr) (e : expr)
    : result E (list F → result E F) :=
  xs ← symbol_names args;
  Ok (λ vals,
        if bool_decide (length vals = length xs)
        then eval (zip xs vals) (generated e)
        else Raise TypeError).
End Lambdify.
End sm.

(** ** The module namespace *)

Inductive pyval : Type :=
| PExpr (e : sm.expr)
| PList (l : list sm.expr).

(** Lines 7-16. *)
Definition module_namespace : gmap string pyval :=
  let k := sm.symbols "k" in
  let h := sm.symbols "h" in
  let alpha := sm.symbols "alpha" in
  let delta := sm.symbols "delta" in
  let phi := sm.symbols "phi" in
  let s_K := sm.symbols "s_K" in
  let s_H := sm.symbols "s_H" in
  let g := sm.symbols "g" in
  let n := sm.symbols "n" in
  let param := [k; h; alpha; delta; phi; s_K; s_H; g; n] in
  list_to_map
    [("k", PExpr k); ("h", PExpr h); ("alpha", PExpr alpha);
     ("delta", PExpr delta); ("phi", PExpr phi); ("s_K", PExpr s_K);
     ("s_H", PExpr s_H); ("g", PExpr g); ("n", PExpr n);
     ("param", PList param)].

(** The nine symbols are bound in [ns] as they are in the module. *)
Definition module_symbols : list string :=
  ["k"; "h"; "alpha"; "delta"; "phi"; "s_K"; "s_H"; "g"; "n"].

Definition binds_symbols (ns : gmap string pyval) : Prop :=
  Forall (λ x, ns !! x = Some (PExpr (sm.symbols x))) module_symbols.

(** A call runs in the module namespace and hands it back. *)
Definition M (E A : Type) : Type :=
  gmap string pyval → result E A * gmap string pyval.

#[global] Instance M_ret {E} : MRet (M E) := λ A a ns, (Ok a, ns).
#[global] Instance M_bind {E} : MBind (M E) := λ A B f m ns,
  match m ns with
  | (Ok a, ns') => f a ns'
  | (Raise x, ns') => (Raise x, ns')
  end.

Definition lift {E A} (r : result E A) : M E A := λ ns, (r, ns).

(** A module-level name used as an operand. *)
Definition name {E} (x : string) : M E sm.expr := λ ns,
  match ns !! x with
  | Some (PExpr e) => (Ok e, ns)
  | Some (PList _) => (Raise TypeError, ns)
  | None => (Raise NameError, ns)
  end.

Definition int {E} (z : Z) : M E sm.expr := mret (sm.Integer z).

(** [a op b]: the operands left to right, then the node that the source
    writes (see [sm.expr] for the form sympy keeps). *)
Definition binop {E} (f : sm.expr → sm.expr → sm.expr)
    (a b : M E sm.expr) : M E sm.expr :=
  x ← a; y ← b; mret (f x y).

Fixpoint tuple {E} (items : list (M E sm.expr)) : M E (list sm.expr) :=
  match items with
  | [] => mret []
  | a :: items' => x ← a; xs ← tuple items'; mret (x :: xs)
  end.

Declare Scope py_scope.
Delimit Scope py_scope with py.
Notation "a + b" := (binop sm.Add a b) : py_scope.
Notation "a - b" := (binop sm.Sub a b) : py_scope.
Notation "a * b" := (binop sm.Mul a b) : py_scope.
Notation "a / b" := (binop sm.Div a b) : py_scope.
Notation "a ** b" := (binop sm.Pow a b)
  (at level 30, right associativity) : py_scope.

Definition sm_Eq {E} (a b : M E sm.expr) : M E sm.equation :=
  x ← a; y ← b; mret (sm.Eq x y).

(** ** [nullclines] and [aevaluation] *)

Section Symbolic.
Context {F E : Type} `{!HostMath F E}.

(** [sm.solve(eq, x)], the solver of the symbolic library: a list of
    expressions for [x], or an exception. *)
Variable solve : sm.equation → sm.expr → result E (list sm.expr).

(** The code generator of [sm.lambdify]. *)
Variable generated : sm.expr → sm.expr.

Definition nullclines {X : Type} (param : X)
    : M E (list sm.expr * list sm.expr) :=
  trans_k ← sm_Eq (name "k")
    ((name "s_K" * name "k" ** name "alpha" * name "h" ** name "phi"
      + (int 1 - name "delta") * name "k")
     / ((int 1 + name "n") * (int 1 + name "g")))%py;
  trans_h ← sm_Eq (name "h")
    ((name "s_H" * name "k" ** name "alpha" * name "h" ** name "phi"
      + (int 1 - name "delta") * name "h")
     / ((int 1 + name "n") * (int 1 + name "g")))%py;
  let Delta_k := sm.Sub (sm.lhs trans_k) (sm.rhs trans_k) in
  let Delta_h := sm.Sub (sm.lhs trans_h) (sm.rhs trans_h) in
  let zero_k := sm.Eq (sm.Integer 0) Delta_k in
  let zero_h := sm.Eq (sm.Integer 0) Delta_h in
  h ← name "h";
  nullcline_k ← lift (solve zero_k h);
  h ← name "h";
  nullcline_h ← lift (solve zero_h h);
  mret (nullcline_k, nullcline_h).

Definition aevaluation {X : Type} (x : X)
    : M E ((list F → result E F) * (list F → result E F)) :=
  kss ← (((name "s_K" ** (int 1 - name "phi") * name "s_H" ** name "phi")
          / (name "n" + name "g" + name "delta" + name "n" * name "g"))
         ** (int 1 / (int 1 - name "alpha" - name "phi")))%py;
  hss ← (((name "s_K" ** name "alpha" * name "s_H" ** (int 1 - name "alpha"))
          / (name "n" + name "g" + name "delta" + name "n" * name "g"))
         ** (int 1 / (int 1 - name "alpha" - name "phi")))%py;
  args ← tuple [name "s_K"; name "s_H"; name "g"; name "n";
                name "delta"; name "phi"; name "alpha"];
  kss_func ← lift (sm.lambdify generated args kss);
  args ← tuple [name "s_K"; name "s_H"; name "g"; name "n";
                name "delta"; name "phi"; name "alpha"];
  hss_func ← lift (sm.lambdify generated args hss);
  mret (kss_func, hss_func).
End Symbolic.

(** Lines 56 and 57 as trees over the module's symbols. *)
Definition kss_expr : sm.expr :=
  let s_K := sm.Symbol "s_K" in
  let s_H := sm.Symbol "s_H" in
  let g := sm.Symbol "g" in
  let n := sm.Symbol "n" in
  let delta := sm.Symbol "delta" in
  let phi := sm.Symbol "phi" in
  let alpha := sm.Symbol "alpha" in
  sm.Pow
    (sm.Div
       (sm.Mul (sm.Pow s_K (sm.Sub (sm.Integer 1) phi)) (sm.Pow s_H phi))
       (sm.Add (sm.Add (sm.Add n g) delta) (sm.Mul n g)))
    (sm.Div (sm.Integer 1) (sm.Sub (sm.Sub (sm.Integer 1) alpha) phi)).





(** ** An exact host

    Rational arithmetic with integer exponents, to run the model on
    concrete inputs without rounding.  Division by zero and a zero base
    with a negative exponent raise, as they do on Python's own floats and
    on numpy's when its error state is set to raise (by default numpy
    returns an infinity or a NaN: see [binary64] below); an exponent that
    is not an integer has no exact value and raises too. *)
Module exact.
Inductive error : Type :=
| ZeroDivisionError
| Inexact.

Definition div (x y : Q) : error + Q :=
  if Qeq_bool y 0 then inl ZeroDivisionError else inr (Qred (x / y)).

Definition pow (x a : Q) : error + Q :=
  let a' := Qred a in
  if negb (Pos.eqb (Qden a') 1) then inl Inexact
  else if (Qnum a' <? 0)%Z && Qeq_bool x 0 then inl ZeroDivisionError
  else inr (Qred (Qpower x (Qnum a'))).

#[global] Instance host_math : HostMath Q error := {|
  of_int := inject_Z;
  fadd x y := Qred (x + y);
  fsub x y := Qred (x - y);
  fmul x y := Qred (x * y);
  fdiv := div;
  fpow := pow
|}.

(** A run with [s_K = s_H = 1/5], [n = g = 1/50], [delta = 1/20],
    [alpha = 1] and [phi = 0]. *)
Definition run (k0 h0 : Q) (T : Z) : result error (list Q * list Q) :=
  (capital (1 # 5) (1 # 5) (1 # 50) (1 # 20) 1 0 k0 h0 T (1 # 50))%Q.

(** The same with [n = -1] and [g = 0], so that [1+n+g] is zero. *)
Definition run_zero_divisor (k0 h0 : Q) (T : Z)
    : result error (list Q * list Q) :=
  (capital (1 # 5) (1 # 5) (-1) (1 # 20) 1 0 k0 h0 T 0)%Q.
End exact.

(** ** The host of the program: binary64

    numpy's float64 and Python's [float] are the IEEE 754 binary64
    numbers, here the floats of the kernel, rounded to nearest.  A numpy
    division never raises: a zero divisor gives an infinity or a NaN, with
    a warning.  Of the powers this host knows those that IEEE 754 fixes,
    [x**0 = 1], [1**y = 1] and [x**1 = x]; every other power is the
    C library's, and the host reports it as [Unsupported]. *)
Module binary64.
Inductive error : Type :=
| Unsupported.

(** The float of an [int] (exact below 2^53). *)
Definition of_Z (z : Z) : float :=
  match z with
  | Z0 => 0%float
  | Zpos p => Pos.iter_op PrimFloat.add p 1%float
  | Zneg p => PrimFloat.opp (Pos.iter_op PrimFloat.add p 1%float)
  end.

Definition pow (x y : float) : error + float :=
  if PrimFloat.eqb y 0 then inr 1%float
  else if PrimFloat.eqb x 1 then inr 1%float
  else if PrimFloat.eqb y 1 then inr x
  else inl Unsupported.

#[global] Instance host_math : HostMath float error := {|
  of_int := of_Z;
  fadd := PrimFloat.add;
  fsub := PrimFloat.sub;
  fmul := PrimFloat.mul;
  fdiv x y := inr (PrimFloat.div x y);
  fpow := pow
|}.

(** [capital(0.2, 0.2, -1, 0.05, 1, 0, k0, h0, T, 0)]: [1+n+g] is zero. *)
Definition run_zero_divisor (k0 h0 : float) (T : Z)
    : result error (list float * list float) :=
  capital 0.2%float 0.2%float (-1)%float 0.05%float 1%float 0%float
    k0 h0 T 0%float.

(** The body of the function that [sm.lambdify] writes for [kss], as
    [inspect.getsource] prints it:
    [(s_H**phi*s_K**(1 - phi)/(delta + g*n + g + n))**((-alpha - phi + 1)**(-1.0))].
    The negation [-alpha] is the product [(-1)·alpha], as sympy holds it;
    both are the same float. *)
Definition kss_generated : sm.expr :=
  let s_K := sm.Symbol "s_K" in
  let s_H := sm.Symbol "s_H" in
  let g := sm.Symbol "g" in
  let n := sm.Symbol "n" in
  let delta := sm.Symbol "delta" in
  let phi := sm.Symbol "phi" in
  let alpha := sm.Symbol "alpha" in
  sm.Pow
    (sm.Div
       (sm.Mul (sm.Pow s_H phi) (sm.Pow s_K (sm.Sub (sm.Integer 1) phi)))
       (sm.Add (sm.Add (sm.Add delta (sm.Mul g n)) g) n))
    (sm.Pow
       (sm.Add (sm.Sub (sm.Mul (sm.Integer (-1)) alpha) phi) (sm.Integer 1))
       (sm.Integer (-1))).

(** A code generator that writes [kss] this way, and any other expression
    as it stands. *)
Definition generated (e : sm.expr) : sm.expr :=
  if decide (e = kss_expr) then kss_generated else e.
End binary64.

(** ** Predicates on the simulated paths *)

(** The run that the update rule determines: the two stocks after [t]
    applications of the rule to [(k0, h0)], the capital first, or the
    exception of the first operation that raises. *)
Fixpoint pair_at {F E} `{!HostMath F E}
    (s_K s_H n delta alpha phi g k0 h0 : F) (t : nat) : result E (F * F) :=
  match t with
  | O => Ok (k0, h0)
  | S t' =>
      '(k, h) ← pair_at s_K s_H n delta alpha phi g k0 h0 t';
      k' ← update_rule s_K n delta alpha phi g k h k;
      h' ← update_rule s_H n delta alpha phi g k h h;
      Ok (k', h')
  end.

(** Entry [t] of both arrays is the update rule applied to entry [t-1]. *)
Definition follows_rule {F E} `{!HostMath F E}
    (s_K s_H n delta alpha phi g : F) (k h : list F) (t : Z) : Prop :=
  ∃ kp hp kt ht,
    k !! Z.to_nat (t - 1) = Some kp ∧ h !! Z.to_nat (t - 1) = Some hp ∧
    k !! Z.to_nat t = Some kt ∧ h !! Z.to_nat t = Some ht ∧
    update_rule s_K n delta alpha phi g kp hp kp = Ok kt ∧
    update_rule s_H n delta alpha phi g kp hp hp = Ok ht.

(** What holds of the two arrays once the loop is through iteration [j]:
    their length is still [N], cell 0 holds the initial condition, and the
    cells up to [j] follow the rule. *)
Definition loop_inv {F E} `{!HostMath F E}
    (s_K s_H n delta alpha phi g k0 h0 : F) (N : nat) (j : Z)
    (kh : list F * list F) : Prop :=
  length kh.1 = N ∧ length kh.2 = N ∧
  kh.1 !! 0%nat = Some k0 ∧ kh.2 !! 0%nat = Some h0 ∧
  ∀ t, 1 ≤ t ≤ j → follows_rule s_K s_H n delta alpha phi g kh.1 kh.2 t.

(** ** Calls that leave the namespace alone *)

Definition read_only {E A} (m : M E A) : Prop :=
  ∀ ns, (m ns).2 = ns.

(** * The data project ([dataproject/dataproject.py])

    The two functions draw on a figure and return nothing: the figure is
    the list of the calls made on it so far, oldest first, and it keeps
    what was drawn when a call ends with an exception. *)

(** ** Data frames ([import pandas as pd]) *)

Module pd.
(** A missing column; it reaches the caller as [HostError (KeyError c)]. *)
Inductive error : Type :=
| KeyError (key : string).

Record Series (D V : Type) : Type := {
  series_index : list D;
  series_values : list V
}.
Arguments series_index {D V} _.
Arguments series_values {D V} _.

(** Row labels and named columns of cells. *)
Record DataFrame (D V : Type) : Type := {
  index : list D;
  columns : gmap string (list V)
}.
Arguments index {D V} _.
Arguments columns {D V} _.

(** Every column has one cell per row. *)
Definition wf {D V} (df : DataFrame D V) : Prop :=
  ∀ c vs, columns df !! c = Some vs → length vs = length (index df).

(** [len(df)] *)
Definition len {D V} (df : DataFrame D V) : Z := Z.of_nat (length (index df)).

(** [df[c]] *)
Definition getcol {D V} (df : DataFrame D V) (c : string)
    : result error (Series D V) :=
  match columns df !! c with
  | Some vs => Ok {| series_index := index df; series_values := vs |}
  | None => Raise (HostError (KeyError c))
  end.

(** [s.iloc[i]] *)
Definition iloc {D V} (s : Series D V) (i : Z) : result error V :=
  getitem (series_values s) i.

(** [df.index[i]] *)
Definition label {D V} (df : DataFrame D V) (i : Z) : result error D :=
  getitem (index df) i.

(** What the source applies to the data without defining it: the test of a
    cell against an [int] literal, which answers True or False as it does
    on numpy numbers (False on a missing value), [df.pct_change()] and
    [df * z]. *)
Class Ops (D V : Type) : Type := {
  eq_int : V → Z → bool;
  pct_change : DataFrame D V → DataFrame D V;
  times : DataFrame D V → Z → DataFrame D V
}.
End pd.

(** ** The figure ([import matplotlib.pyplot as plt]) *)

Module plt.
(** The calls the two functions make; [ax] is the position of the axes in
    what [plt.subplots] returned. *)
Inductive call (D V X : Type) : Type :=
| subplots (nrows : nat) (figsize : Z * Z)
| plot (ax : nat) (data : pd.DataFrame D V + pd.Series D V) (label : string)
| set_xlim (ax : nat) (left right : X)
| grid (ax : nat) (axis : string)
| set_xlabel (ax : nat) (s : string)
| set_ylabel (ax : nat) (s : string)
| set_title (ax : nat) (s : string)
| axhline (ax : nat) (y : Z) (color : string)
| axvspan (ax : nat) (xmin xmax : D) (alpha : Q) (color : string)
| legend (ax : nat)
| text (ax : nat) (x y : Q) (s : string) (ha : string)
| suptitle (s : string) (fontsize : string)
| fig_text (x y : Q) (s : string) (fontsize : Z) (ha : string)
| show.
Arguments subplots {D V X} _ _.
Arguments plot {D V X} _ _ _.
Arguments set_xlim {D V X} _ _ _.
Arguments grid {D V X} _ _.
Arguments set_xlabel {D V X} _ _.
Arguments set_ylabel {D V X} _ _.
Arguments set_title {D V X} _ _.
Arguments axhline {D V X} _ _ _.
Arguments axvspan {D V X} _ _ _ _ _.
Arguments legend {D V X} _.
Arguments text {D V X} _ _ _ _ _.
Arguments suptitle {D V X} _ _.
Arguments fig_text {D V X} _ _ _ _ _.
Arguments show {D V X}.

Definition is_axvspan {D V X} (c : call D V X) : bool :=
  match c with axvspan _ _ _ _ _ => true | _ => false end.

Definition is_axvspan_on {D V X} (ax : nat) (c : call D V X) : bool :=
  match c with axvspan ax' _ _ _ _ => Nat.eqb ax ax' | _ => false end.
End plt.

(** A drawing step: it may raise, and hands the figure on. *)
Definition Plt (D V X A : Type) : Type :=
  list (plt.call D V X) → result pd.error A * list (plt.call D V X).

#[global] Instance Plt_ret {D V X} : MRet (Plt D V X) := λ A a fig, (Ok a, fig).
#[global] Instance Plt_bind {D V X} : MBind (Plt D V X) := λ A B f m fig,
  match m fig with
  | (Ok a, fig') => f a fig'
  | (Raise x, fig') => (Raise x, fig')
  end.

Definition emit {D V X} (c : plt.call D V X) : Plt D V X unit :=
  λ fig, (Ok (), fig ++ [c]).

Definition eval_ {D V X A} (r : result pd.error A) : Plt D V X A :=
  λ fig, (r, fig).

(** [if b: m] *)
Definition when {D V X} (b : bool) (m : Plt D V X unit) : Plt D V X unit :=
  if b then m else mret ().

(** [for i in ts: body(i)] *)
Fixpoint for_ {D V X} (ts : list Z) (body : Z → Plt D V X unit)
    : Plt D V X unit :=
  match ts with
  | [] => mret ()
  | i :: ts' => body i ;; for_ ts' body
  end.

Definition source_note : string :=
  "Source: Federal Reserve Economic Data (FRED)"
  +:+ String (Ascii.ascii_of_nat 10) "Annotation: Shaded areas are NBER defined recessions".

(** ** [figure1] and [figure2] *)

Section Figures.
Context {D V X : Type} `{!pd.Ops D V}.

(** Lines 46-51, one row. *)
Definition figure1_body (nber : pd.DataFrame D V) (i : Z) : Plt D V X unit :=
  usrec ← eval_ (pd.getcol nber "USREC");
  v ← eval_ (pd.iloc usrec i);
  when (pd.eq_int v 1) (
    a ← eval_ (pd.label nber (i - 1));
    b ← eval_ (pd.label nber i);
    emit (plt.axvspan 0 a b (1 # 5) "gray");;
    a ← eval_ (pd.label nber (i - 1));
    b ← eval_ (pd.label nber i);
    emit (plt.axvspan 1 a b (1 # 5) "gray"));;
  usrec ← eval_ (pd.getcol nber "USREC");
  v ← eval_ (pd.iloc usrec i);
  when (pd.eq_int v 0) (
    a ← eval_ (pd.label nber (i - 1));
    b ← eval_ (pd.label nber i);
    emit (plt.axvspan 0 a b 1 "white");;
    a ← eval_ (pd.label nber (i - 1));
    b ← eval_ (pd.label nber i);
    emit (plt.axvspan 1 a b 1 "white")).

Definition figure1 (gdp nber : pd.DataFrame D V) (start end_ : X)
    : Plt D V X unit :=
  emit (plt.subplots 2 (14, 7));;
  emit (plt.plot 0 (inl gdp) "GDP");;
  emit (plt.set_xlim 0 start end_);;
  emit (plt.grid 0 "y");;
  emit (plt.set_ylabel 0 "Billion of dollars");;
  emit (plt.set_title 0 "(a)");;
  let gdp_g := pd.times (pd.pct_change gdp) 100 in
  emit (plt.plot 1 (inl gdp_g) "GDP growth");;
  emit (plt.set_xlim 1 start end_);;
  emit (plt.grid 1 "y");;
  emit (plt.set_ylabel 1 "Percent %");;
  emit (plt.axhline 1 0 "black");;
  emit (plt.set_title 1 "(b)");;
  for_ (range 0 (pd.len nber)) (figure1_body nber);;
  emit (plt.suptitle "Figure 1. GDP and GDP growth" "16");;
  emit (plt.fig_text (1 # 2) 0 source_note 12 "center");;
  emit plt.show.

(** Lines 94-97, one row. *)
Definition figure2_body (nber : pd.DataFrame D V) (i : Z) : Plt D V X unit :=
  usrec ← eval_ (pd.getcol nber "USREC");
  v ← eval_ (pd.iloc usrec i);
  when (pd.eq_int v 1) (
    a ← eval_ (pd.label nber (i - 1));
    b ← eval_ (pd.label nber i);
    emit (plt.axvspan 0 a b (1 # 5) "gray"));;
  usrec ← eval_ (pd.getcol nber "USREC");
  v ← eval_ (pd.iloc usrec i);
  when (pd.eq_int v 0) (
    a ← eval_ (pd.label nber (i - 1));
    b ← eval_ (pd.label nber i);
    emit (plt.axvspan 0 a b 1 "white")).

Definition figure2 (yield_curves nber : pd.DataFrame D V) (start end_ : X)
    : Plt D V X unit :=
  emit (plt.subplots 1 (14, 7));;
  s ← eval_ (pd.getcol yield_curves "10Y-3M");
  emit (plt.plot 0 (inr s) "10 year - 3 month treasury yield spread");;
  s ← eval_ (pd.getcol yield_curves "10Y-2Y");
  emit (plt.plot 0 (inr s) "10 year - 2 year treasury yield spread");;
  s ← eval_ (pd.getcol yield_curves "10Y-FFR");
  emit (plt.plot 0 (inr s) "10 year - federal funds rate spread");;
  emit (plt.set_title 0 "Figure 2. Different yield curves");;
  emit (plt.set_xlabel 0 "Date");;
  emit (plt.set_ylabel 0 "Percent %");;
  emit (plt.set_xlim 0 start end_);;
  emit (plt.legend 0);;
  emit (plt.text 0 12000 (-5 # 2) source_note "center");;
  emit (plt.grid 0 "y");;
  emit (plt.axhline 0 0 "black");;
  for_ (range 0 (pd.len nber)) (figure2_body nber);;
  emit plt.show.

(** The bands of one row on the axes [axes]: from label [a] to label [b],
    gray when the flag is 1, white when it is 0. *)
Definition band (axes : list nat) (a b : D) (v : V) : list (plt.call D V X) :=
  (if pd.eq_int v 1
   then (λ ax, plt.axvspan ax a b (1 # 5) "gray") <$> axes else []) ++
  (if pd.eq_int v 0
   then (λ ax, plt.axvspan ax a b 1 "white") <$> axes else []).

(** The row before row [i], as [index[i-1]] finds it: the last row for the
    first one. *)
Definition previous_row (rows i : nat) : nat :=
  match i with
  | O => rows - 1
  | S j => j
  end.

Definition row_band (axes : list nat) (idx : list D) (i : nat) (v : V)
    : list (plt.call D V X) :=
  match idx !! previous_row (length idx) i, idx !! i with
  | Some a, Some b => band axes a b v
  | _, _ => []
  end.

(** All bands, row by row. *)
Definition recession_bands (axes : list nat) (idx : list D) (flags : list V)
    : list (plt.call D V X) :=
  mjoin (imap (row_band axes idx) flags).
End Figures.

(** ** Frames of exact numbers

    Frames whose labels are integers and whose cells are rationals or
    missing, to run the figures on concrete frames.  The change of a cell
    is [x / previous - 1], missing in the first row, after a missing cell
    and after a zero. *)
Module frames.
Definition eq_int (v : option Q) (z : Z) : bool :=
  match v with
  | Some q => Qeq_bool q (inject_Z z)
  | None => false
  end.

Fixpoint changes (previous : option Q) (cells : list (option Q))
    : list (option Q) :=
  match cells with
  | [] => []
  | x :: cells' =>
      match previous, x with
      | Some p, Some q =>
          if Qeq_bool p 0 then None else Some (Qred (q / p - 1))
      | _, _ => None
      end :: changes x cells'
  end.

Definition pct_change (df : pd.DataFrame Z (option Q))
    : pd.DataFrame Z (option Q) :=
  {| pd.index := pd.index df; pd.columns := changes None <$> pd.columns df |}.

Definition times (df : pd.DataFrame Z (option Q)) (z : Z)
    : pd.DataFrame Z (option Q) :=
  {| pd.index := pd.index df;
     pd.columns :=
       fmap (M:=list) (fmap (M:=option) (λ q, Qred (q * inject_Z z)))
         <$> pd.columns df |}.

#[global] Instance ops : pd.Ops Z (option Q) := {|
  pd.eq_int := eq_int;
  pd.pct_change := pct_change;
  pd.times := times
|}.

Definition gdp : pd.DataFrame Z (option Q) :=
  {| pd.index := [10; 20; 30];
     pd.columns := {[ "GDP" := [Some 100; Some 110; Some 121]%Q ]} |}.

(** A recession in the first row, none in the second, no flag in the
    third. *)
Definition nber : pd.DataFrame Z (option Q) :=
  {| pd.index := [10; 20; 30];
     pd.columns := {[ "USREC" := [Some 1; Some 0; None]%Q ]} |}.

Definition yield_curves : pd.DataFrame Z (option Q) :=
  {| pd.index := [10; 20; 30];
     pd.columns :=
       <["10Y-3M" := [Some 1; Some 2; Some 3]%Q]>
         (<["10Y-2Y" := [Some 1; Some 1; Some 1]%Q]>
            {[ "10Y-FFR" := [Some 2; Some 1; Some 0]%Q ]}) |}.

Definition no_rows : pd.DataFrame Z (option Q) :=
  {| pd.index := []; pd.columns := ∅ |}.

Definition no_flags : pd.DataFrame Z (option Q) :=
  {| pd.index := [10]; pd.columns := ∅ |}.
End frames.

(** * Properties *)

(** ** The result monad *)

Lemma bind_Raise {E A B} (m : result E A) (f : A → result E B) (x : exn E) :
  m ≫= f = Raise x ↔ m = Raise x ∨ ∃ a, m = Ok a ∧ f a = Raise x.
Proof.
  destruct m as [a|y]; simpl; split.
  - intros Hf. right. exists a. done.
  - intros [[=]|(a' & [= <-] & Hf)]. done.
  - intros [= <-]. by left.
  - intros [[= <-]|(a' & [=] & _)]. done.
Qed.

Lemma host_Raise {F E} (r : E + F) (x : exn E) : host r = Raise x → is_host x.
Proof. destruct r; simpl; [intros [= <-]; exact I | discriminate]. Qed.

(** ** Arrays *)

Section ArrayFacts.
Context {F E : Type} `{!HostMath F E}.
Implicit Types (a : list F) (i : Z) (x : F).

Lemma np_zeros_nonneg T :
  0 ≤ T → np_zeros (E:=E) T = Ok (replicate (Z.to_nat T) (of_int 0)).
Proof. intros HT. unfold np_zeros. case_bool_decide; [lia|done]. Qed.

Lemma index_nonneg (len : nat) i :
  0 ≤ i →
  index (E:=E) len i =
    if bool_decide (i < Z.of_nat len) then Ok (Z.to_nat i) else Raise IndexError.
Proof.
  intros Hi. unfold index.
  repeat case_bool_decide; try done; lia.
Qed.

Lemma getitem_nonneg a i :
  0 ≤ i →
  getitem (E:=E) a i =
    match a !! Z.to_nat i with Some x => Ok x | None => Raise IndexError end.
Proof.
  intros Hi. unfold getitem. rewrite index_nonneg by done.
  case_bool_decide as Hlt; simpl; [done|].
  rewrite lookup_ge_None_2; [done|lia].
Qed.

Lemma setitem_nonneg a i x :
  0 ≤ i →
  setitem (E:=E) a i x =
    if bool_decide (i < Z.of_nat (length a)) then Ok (<[Z.to_nat i := x]> a)
    else Raise IndexError.
Proof.
  intros Hi. unfold setitem. rewrite index_nonneg by done.
  by case_bool_decide.
Qed.
End ArrayFacts.

(** ** The loop of [capital] *)

Section Loop.
Context {F E : Type} `{!HostMath F E}.
Variables (s_K s_H n delta alpha phi g : F).

Local Abbreviation body := (capital_body s_K s_H n delta alpha phi g).
Local Abbreviation rule_k := (update_rule (E:=E) s_K n delta alpha phi g).
Local Abbreviation rule_h := (update_rule (E:=E) s_H n delta alpha phi g).

Lemma update_rule_Raise s k h x e :
  update_rule (E:=E) s n delta alpha phi g k h x = Raise e → is_host e.
Proof.
  unfold update_rule. intros Hr.
  apply bind_Raise in Hr as [Hr|(p & _ & Hr)]; [by eapply host_Raise|].
  apply bind_Raise in Hr as [Hr|(q & _ & Hr)]; by eapply host_Raise.
Qed.

(** One iteration, given the cells it reads. *)
Lemma capital_body_eq (t : Z) (k h : list F) (kp hp : F) :
  1 ≤ t → t < Z.of_nat (length k) → t < Z.of_nat (length h) →
  k !! Z.to_nat (t - 1) = Some kp → h !! Z.to_nat (t - 1) = Some hp →
  body t (k, h) =
    x ← rule_k kp hp kp; y ← rule_h kp hp hp;
    Ok (<[Z.to_nat t := x]> k, <[Z.to_nat t := y]> h).
Proof.
  intros Ht Hlk Hlh Hk Hh. unfold capital_body, update_rule.
  rewrite !getitem_nonneg by lia. rewrite Hk, Hh. simpl.
  destruct (fpow kp alpha) as [e|p1] eqn:Hp1; simpl; [done|].
  destruct (fpow hp phi) as [e|p2]; simpl; [done|].
  destruct (fdiv _ _) as [e|x]; simpl; [done|].
  rewrite setitem_nonneg by lia. rewrite bool_decide_eq_true_2 by done. simpl.
  rewrite getitem_nonneg by lia.
  rewrite list_lookup_insert_ne by lia. rewrite Hk. simpl.
  rewrite Hp1. simpl.
  destruct (fdiv _ _) as [e|y]; simpl; [done|].
  rewrite setitem_nonneg by lia. by rewrite bool_decide_eq_true_2.
Qed.

Lemma follows_rule_insert (k h : list F) (a t : Z) (x y : F) :
  1 ≤ t < a →
  follows_rule s_K s_H n delta alpha phi g k h t →
  follows_rule s_K s_H n delta alpha phi g
    (<[Z.to_nat a := x]> k) (<[Z.to_nat a := y]> h) t.
Proof.
  intros Hta (kp & hp & kt & ht & ? & ? & ? & ? & ? & ?).
  exists kp, hp, kt, ht.
  rewrite !list_lookup_insert_ne by lia. done.
Qed.

Variables (k0 h0 : F) (N : nat).
Local Abbreviation inv := (loop_inv s_K s_H n delta alpha phi g k0 h0 N).

(** Iterations [a .. a+m-1] started in a state that is through [a-1]. *)
Lemma loop_spec (m : nat) : ∀ (a : Z) (kh : list F * list F),
  1 ≤ a → a + Z.of_nat m ≤ Z.of_nat N →
  inv (a - 1) kh →
  match for_each (seqZ a (Z.of_nat m)) body kh with
  | Ok kh' => inv (a + Z.of_nat m - 1) kh'
  | Raise e => is_host e
  end.
Proof.
  induction m as [|m IH]; intros a [k h] Ha HN Hinv.
  - simpl. by replace (a + Z.of_nat 0 - 1) with (a - 1) by lia.
  - rewrite seqZ_cons by lia. cbn [for_each].
    destruct Hinv as (Hlk & Hlh & Hk0 & Hh0 & Hrule). cbn [fst snd] in *.
    destruct (lookup_lt_is_Some_2 k (Z.to_nat (a - 1))) as [kp Hkp]; [lia|].
    destruct (lookup_lt_is_Some_2 h (Z.to_nat (a - 1))) as [hp Hhp]; [lia|].
    rewrite (capital_body_eq a k h kp hp) by (done || lia).
    destruct (rule_k kp hp kp) as [x|e] eqn:Hx; simpl;
      [|by eapply update_rule_Raise].
    destruct (rule_h kp hp hp) as [y|e] eqn:Hy; simpl;
      [|by eapply update_rule_Raise].
    replace (Z.pred (Z.of_nat (S m))) with (Z.of_nat m) by lia.
    specialize (IH (Z.succ a) (<[Z.to_nat a := x]> k, <[Z.to_nat a := y]> h)).
    replace (Z.succ a + Z.of_nat m - 1) with (a + Z.of_nat (S m) - 1) in IH by lia.
    apply IH; [lia|lia|].
    replace (Z.succ a - 1) with a by lia.
    split_and!; simpl.
    + by rewrite length_insert.
    + by rewrite length_insert.
    + rewrite list_lookup_insert_ne by lia. done.
    + rewrite list_lookup_insert_ne by lia. done.
    + intros t Ht. destruct (decide (t = a)) as [->|Hne].
      * exists kp, hp, x, y.
        rewrite !list_lookup_insert_ne by lia.
        rewrite !list_lookup_insert_eq by lia. done.
      * apply follows_rule_insert; [lia|]. apply Hrule. lia.
Qed.
End Loop.

(** ** [capital] as a whole *)

Section CapitalFacts.
Context {F E : Type} `{!HostMath F E}.
Variables (s_K s_H n delta alpha phi k0 h0 : F) (T : Z) (g : F).

Local Abbreviation body := (capital_body s_K s_H n delta alpha phi g).

(** The two arrays after lines 87-90. *)
Lemma capital_unfold :
  1 ≤ T →
  capital s_K s_H n delta alpha phi k0 h0 T g =
    for_each (seqZ 1 (Z.of_nat (Z.to_nat (T - 1)))) body
      (<[0%nat := k0]> (replicate (Z.to_nat T) (of_int 0)),
       <[0%nat := h0]> (replicate (Z.to_nat T) (of_int 0))).
Proof.
  intros HT. unfold capital, range.
  rewrite np_zeros_nonneg by lia. cbn [mbind result_bind].
  rewrite !setitem_nonneg by lia. rewrite length_replicate.
  rewrite bool_decide_eq_true_2 by lia. cbn [mbind result_bind].
  replace (Z.of_nat (Z.to_nat (T - 1))) with (T - 1) by lia.
  change (Z.to_nat 0) with 0%nat.
  by destruct (for_each _ _ _) as [[k h]|e].
Qed.

(** Lines 87-90 leave the arrays as the loop wants them. *)
Lemma loop_inv_init :
  1 ≤ T →
  loop_inv s_K s_H n delta alpha phi g k0 h0 (Z.to_nat T) (1 - 1)
    (<[0%nat := k0]> (replicate (Z.to_nat T) (of_int 0)),
     <[0%nat := h0]> (replicate (Z.to_nat T) (of_int 0))).
Proof.
  intros HT. unfold loop_inv. cbn [fst snd].
  rewrite !length_insert, !length_replicate.
  rewrite !list_lookup_insert_eq by (rewrite length_replicate; lia).
  split_and!; try done. intros t Ht. lia.
Qed.

(** Every outcome of a call. *)
Lemma capital_spec :
  match capital s_K s_H n delta alpha phi k0 h0 T g with
  | Ok kh =>
      1 ≤ T ∧
      loop_inv s_K s_H n delta alpha phi g k0 h0 (Z.to_nat T) (T - 1) kh
  | Raise e =>
      (T < 0 ∧ e = ValueError) ∨ (T = 0 ∧ e = IndexError) ∨
      (1 ≤ T ∧ is_host e)
  end.
Proof.
  destruct (decide (T < 0)) as [Hneg|Hnneg].
  { unfold capital, np_zeros. rewrite bool_decide_eq_true_2 by done.
    simpl. by left. }
  destruct (decide (T = 0)) as [->|Hnz].
  { cbn. right. by left. }
  rewrite capital_unfold by lia.
  pose proof (loop_spec s_K s_H n delta alpha phi g k0 h0 (Z.to_nat T)
                (Z.to_nat (T - 1)) 1 _ ltac:(lia) ltac:(lia)
                (loop_inv_init ltac:(lia))) as Hloop.
  destruct (for_each _ _ _) as [kh|e].
  - split; [lia|].
    by replace (T - 1) with (1 + Z.of_nat (Z.to_nat (T - 1)) - 1) by lia.
  - right. right. split; [lia|done].
Qed.

Lemma capital_Ok (k h : list F) :
  capital s_K s_H n delta alpha phi k0 h0 T g = Ok (k, h) →
  1 ≤ T ∧ loop_inv s_K s_H n delta alpha phi g k0 h0 (Z.to_nat T) (T - 1) (k, h).
Proof. intros Hc. pose proof capital_spec as Hs. by rewrite Hc in Hs. Qed.

(** Progress: on a set [D] of bases that the powers accept and the rule
    does not leave, and with a divisor the host accepts, the loop runs
    through. *)
Section Progress.
Variable D : F → Prop.
Hypothesis Hdiv :
  ∀ x, ∃ q, fdiv (E:=E) x (fadd (fadd (of_int 1) n) g) = inr q.
Hypothesis Hpow :
  ∀ x, D x → (∃ p, fpow (E:=E) x alpha = inr p) ∧ (∃ p, fpow (E:=E) x phi = inr p).
Hypothesis Hstep :
  ∀ k h k' h', D k → D h →
    update_rule (E:=E) s_K n delta alpha phi g k h k = Ok k' →
    update_rule (E:=E) s_H n delta alpha phi g k h h = Ok h' →
    D k' ∧ D h'.

Lemma update_rule_defined s k h x :
  D k → D h → ∃ r, update_rule (E:=E) s n delta alpha phi g k h x = Ok r.
Proof.
  intros Hk Hh. unfold update_rule.
  destruct (Hpow k Hk) as [[p ->] _]. destruct (Hpow h Hh) as [_ [q ->]].
  cbn [host mbind result_bind].
  destruct (Hdiv (fadd (fmul (fmul s p) q) (fmul (fsub (of_int 1) delta) x)))
    as [r ->].
  by exists r.
Qed.

Lemma loop_progress (N : nat) (m : nat) : ∀ (a : Z) (k h : list F),
  1 ≤ a → a + Z.of_nat m ≤ Z.of_nat N →
  length k = N → length h = N →
  (∀ kp, k !! Z.to_nat (a - 1) = Some kp → D kp) →
  (∀ hp, h !! Z.to_nat (a - 1) = Some hp → D hp) →
  ∃ kh', for_each (seqZ a (Z.of_nat m)) body (k, h) = Ok kh'.
Proof.
  induction m as [|m IH]; intros a k h Ha HN Hlk Hlh HDk HDh.
  - by exists (k, h).
  - rewrite seqZ_cons by lia. cbn [for_each].
    destruct (lookup_lt_is_Some_2 k (Z.to_nat (a - 1))) as [kp Hkp]; [lia|].
    destruct (lookup_lt_is_Some_2 h (Z.to_nat (a - 1))) as [hp Hhp]; [lia|].
    rewrite (capital_body_eq _ _ _ _ _ _ _ a k h kp hp) by (done || lia).
    destruct (update_rule_defined s_K kp hp kp) as [x Hx]; [auto..|].
    destruct (update_rule_defined s_H kp hp hp) as [y Hy]; [auto..|].
    rewrite Hx, Hy. cbn [mbind result_bind].
    destruct (Hstep kp hp x y) as [HDx HDy]; [auto..|].
    replace (Z.pred (Z.of_nat (S m))) with (Z.of_nat m) by lia.
    apply IH; [lia|lia|(by rewrite length_insert)..|idtac|idtac].
    + replace (Z.to_nat (Z.succ a - 1)) with (Z.to_nat a) by lia.
      rewrite list_lookup_insert_eq by lia. by intros ? [= <-].
    + replace (Z.to_nat (Z.succ a - 1)) with (Z.to_nat a) by lia.
      rewrite list_lookup_insert_eq by lia. by intros ? [= <-].
Qed.

Lemma capital_progress :
  1 ≤ T → D k0 → D h0 →
  ∃ k h, capital s_K s_H n delta alpha phi k0 h0 T g = Ok (k, h).
Proof.
  intros HT HDk HDh. rewrite capital_unfold by done.
  destruct (loop_progress (Z.to_nat T) (Z.to_nat (T - 1)) 1
              (<[0%nat := k0]> (replicate (Z.to_nat T) (of_int 0)))
              (<[0%nat := h0]> (replicate (Z.to_nat T) (of_int 0))))
    as [[k h] Hkh];
    [lia|lia|(by rewrite length_insert, length_replicate)..|idtac|idtac|idtac].
  - change (Z.to_nat (1 - 1)) with 0%nat.
    rewrite list_lookup_insert_eq by (rewrite length_replicate; lia).
    by intros ? [= <-].
  - change (Z.to_nat (1 - 1)) with 0%nat.
    rewrite list_lookup_insert_eq by (rewrite length_replicate; lia).
    by intros ? [= <-].
  - by exists k, h.
Qed.
End Progress.

End CapitalFacts.

(** ** [capital] and the run of the update rule *)

Section Run.
Context {F E : Type} `{!HostMath F E}.
Variables (s_K s_H n delta alpha phi g k0 h0 : F).

Local Abbreviation body := (capital_body s_K s_H n delta alpha phi g).
Local Abbreviation rule_k := (update_rule (E:=E) s_K n delta alpha phi g).
Local Abbreviation rule_h := (update_rule (E:=E) s_H n delta alpha phi g).
Local Abbreviation pair := (pair_at (E:=E) s_K s_H n delta alpha phi g k0 h0).

Lemma pair_at_S (t : nat) (k h x y : F) :
  pair t = Ok (k, h) → rule_k k h k = Ok x → rule_h k h h = Ok y →
  pair (S t) = Ok (x, y).
Proof. intros Hp Hx Hy. cbn [pair_at]. by rewrite Hp; cbn; rewrite Hx; cbn; rewrite Hy. Qed.

(** The rule returns when its two powers and its division do. *)
Lemma update_rule_returns s k h x :
  (∀ y, ∃ q, fdiv (E:=E) y (fadd (fadd (of_int 1) n) g) = inr q) →
  (∃ p, fpow (E:=E) k alpha = inr p) → (∃ p, fpow (E:=E) h phi = inr p) →
  ∃ r, update_rule (E:=E) s n delta alpha phi g k h x = Ok r.
Proof.
  intros Hdiv [p Hp] [q Hq]. unfold update_rule. rewrite Hp, Hq.
  cbn [host mbind result_bind].
  destruct (Hdiv (fadd (fmul (fmul s p) q) (fmul (fsub (of_int 1) delta) x)))
    as [r ->].
  by exists r.
Qed.

(** Iterations [a .. a+m-1], started in arrays whose cells [a-1] hold the
    pair of the run at [a-1]: the loop goes on as long as the run does, and
    an exception it ends with is the one the rule raised on a pair of the
    run. *)
Lemma loop_run (N m : nat) : ∀ (a : Z) (k h : list F) (kp hp : F),
  1 ≤ a → a + Z.of_nat m ≤ Z.of_nat N →
  length k = N → length h = N →
  k !! Z.to_nat (a - 1) = Some kp → h !! Z.to_nat (a - 1) = Some hp →
  pair (Z.to_nat (a - 1)) = Ok (kp, hp) →
  match for_each (seqZ a (Z.of_nat m)) body (k, h) with
  | Ok _ => ∃ p, pair (Z.to_nat (a + Z.of_nat m - 1)) = Ok p
  | Raise x =>
      ∃ (t : nat) kq hq,
        a - 1 ≤ Z.of_nat t < a + Z.of_nat m - 1 ∧ pair t = Ok (kq, hq) ∧
        (rule_k kq hq kq = Raise x ∨ rule_h kq hq hq = Raise x)
  end.
Proof.
  induction m as [|m IH]; intros a k h kp hp Ha HN Hlk Hlh Hkp Hhp Hpair.
  - cbn [for_each seqZ]. exists (kp, hp).
    by replace (a + Z.of_nat 0 - 1) with (a - 1) by lia.
  - rewrite seqZ_cons by lia. cbn [for_each].
    rewrite (capital_body_eq _ _ _ _ _ _ _ a k h kp hp) by (done || lia).
    destruct (rule_k kp hp kp) as [x|e] eqn:Hx; cbn [mbind result_bind].
    2:{ exists (Z.to_nat (a - 1)), kp, hp. split_and!; [lia|lia|done|by left]. }
    destruct (rule_h kp hp hp) as [y|e] eqn:Hy; cbn [mbind result_bind].
    2:{ exists (Z.to_nat (a - 1)), kp, hp. split_and!; [lia|lia|done|by right]. }
    replace (Z.pred (Z.of_nat (S m))) with (Z.of_nat m) by lia.
    specialize (IH (Z.succ a) (<[Z.to_nat a := x]> k) (<[Z.to_nat a := y]> h) x y).
    replace (Z.to_nat (Z.succ a - 1)) with (Z.to_nat a) in IH by lia.
    replace (Z.succ a + Z.of_nat m - 1) with (a + Z.of_nat (S m) - 1) in IH by lia.
    destruct (for_each _ _ _) as [kh'|e].
    + apply IH; [lia|lia|by rewrite length_insert..|idtac|idtac|idtac].
      * apply list_lookup_insert_eq. lia.
      * apply list_lookup_insert_eq. lia.
      * replace (Z.to_nat a) with (S (Z.to_nat (a - 1))) by lia.
        by apply (pair_at_S _ kp hp).
    + destruct IH as (t & kq & hq & Ht & Hq & Hr);
        [lia|lia|by rewrite length_insert..|idtac|idtac|idtac|idtac].
      * apply list_lookup_insert_eq. lia.
      * apply list_lookup_insert_eq. lia.
      * replace (Z.to_nat a) with (S (Z.to_nat (a - 1))) by lia.
        by apply (pair_at_S _ kp hp).
      * exists t, kq, hq. split; [lia|done].
Qed.

(** The same of a call. *)
Lemma capital_run T :
  1 ≤ T →
  match capital s_K s_H n delta alpha phi k0 h0 T g with
  | Ok _ => ∃ p, pair (Z.to_nat (T - 1)) = Ok p
  | Raise x =>
      ∃ (t : nat) kq hq,
        Z.of_nat t < T - 1 ∧ pair t = Ok (kq, hq) ∧
        (rule_k kq hq kq = Raise x ∨ rule_h kq hq hq = Raise x)
  end.
Proof.
  intros HT. rewrite capital_unfold by done.
  pose proof (loop_run (Z.to_nat T) (Z.to_nat (T - 1)) 1
                (<[0%nat := k0]> (replicate (Z.to_nat T) (of_int 0)))
                (<[0%nat := h0]> (replicate (Z.to_nat T) (of_int 0)))
                k0 h0) as Hloop.
  destruct (for_each _ _ _) as [kh|x].
  - destruct Hloop as [p Hp];
      [lia|lia|by rewrite length_insert, length_replicate..
      |idtac|idtac|done|idtac].
    + apply list_lookup_insert_eq. rewrite length_replicate. lia.
    + apply list_lookup_insert_eq. rewrite length_replicate. lia.
    + exists p. rewrite <- Hp. f_equal. lia.
  - destruct Hloop as (t & kq & hq & Ht & Hq & Hr);
      [lia|lia|by rewrite length_insert, length_replicate..
      |idtac|idtac|done|idtac].
    + apply list_lookup_insert_eq. rewrite length_replicate. lia.
    + apply list_lookup_insert_eq. rewrite length_replicate. lia.
    + exists t, kq, hq. split; [lia|done].
Qed.

(** The entries of the returned arrays are the pairs of the run. *)
Lemma capital_entries T (k h : list F) :
  capital s_K s_H n delta alpha phi k0 h0 T g = Ok (k, h) →
  ∀ t : nat, Z.of_nat t < T →
    ∃ kt ht, k !! t = Some kt ∧ h !! t = Some ht ∧ pair t = Ok (kt, ht).
Proof.
  intros Hc. apply capital_Ok in Hc as (HT & Hlk & Hlh & Hk0 & Hh0 & Hrule).
  cbn [fst snd] in *.
  induction t as [|t IH]; intros Ht.
  - by exists k0, h0.
  - destruct IH as (kp & hp & Hkp & Hhp & Hpair); [lia|].
    destruct (Hrule (Z.of_nat (S t)))
      as (kp' & hp' & kt & ht & Hkp' & Hhp' & Hkt & Hht & Hx & Hy); [lia|].
    replace (Z.to_nat (Z.of_nat (S t) - 1)) with t in * by lia.
    rewrite Nat2Z.id in Hkt, Hht.
    assert (kp' = kp) as -> by congruence.
    assert (hp' = hp) as -> by congruence.
    exists kt, ht. split_and!; [done|done|]. by apply (pair_at_S _ kp hp).
Qed.
End Run.

(** ** The namespace *)

Section Frame.
Context {E : Type}.

Lemma read_only_ret {A} (a : A) : read_only (E:=E) (mret a).
Proof. by intros ns. Qed.

Lemma read_only_lift {A} (r : result E A) : read_only (lift r).
Proof. by intros ns. Qed.

Lemma read_only_bind {A B} (m : M E A) (f : A → M E B) :
  read_only m → (∀ a, read_only (f a)) → read_only (m ≫= f).
Proof.
  intros Hm Hf ns. unfold mbind, M_bind.
  specialize (Hm ns). destruct (m ns) as [[a|x] ns']; simpl in *; subst.
  - apply Hf.
  - done.
Qed.

Lemma read_only_name (x : string) : read_only (E:=E) (name x).
Proof. intros ns. unfold name. by destruct (ns !! x) as [[e|l]|]. Qed.

Lemma read_only_int (z : Z) : read_only (E:=E) (int z).
Proof. apply read_only_ret. Qed.

Lemma read_only_binop f (a b : M E sm.expr) :
  read_only a → read_only b → read_only (binop f a b).
Proof.
  intros Ha Hb. unfold binop.
  apply read_only_bind; [done|intros x].
  apply read_only_bind; [done|intros y].
  apply read_only_ret.
Qed.

Lemma read_only_sm_Eq (a b : M E sm.expr) :
  read_only a → read_only b → read_only (sm_Eq a b).
Proof.
  intros Ha Hb. unfold sm_Eq.
  apply read_only_bind; [done|intros x].
  apply read_only_bind; [done|intros y].
  apply read_only_ret.
Qed.

Lemma read_only_tuple (items : list (M E sm.expr)) :
  Forall read_only items → read_only (tuple items).
Proof.
  induction 1 as [|a items Ha _ IH]; simpl.
  - apply read_only_ret.
  - apply read_only_bind; [done|intros x].
    apply read_only_bind; [done|intros xs].
    apply read_only_ret.
Qed.
End Frame.

Create HintDb frame discriminated.
#[global] Hint Resolve read_only_ret read_only_lift read_only_name
  read_only_int read_only_binop read_only_sm_Eq read_only_tuple : frame.
#[global] Hint Constructors Forall : frame.

Ltac read_only_steps :=
  repeat first
    [ apply read_only_bind; [|intros ?]
    | solve [eauto 20 with frame] ].

Lemma nullclines_read_only {E X} solve (param : X) :
  read_only (E:=E) (nullclines solve param).
Proof. unfold nullclines. read_only_steps. Qed.

Lemma aevaluation_read_only {F E X} `{!HostMath F E} generated (x : X) :
  read_only (E:=E) (aevaluation generated x).
Proof. unfold aevaluation. read_only_steps. Qed.

Lemma module_namespace_binds_symbols : binds_symbols module_namespace.
Proof. repeat constructor. Qed.

(** What [nullclines] asks of the solver when the nine symbols are bound as
    in the module: the two equations [0 = x - rhs], each solved for the
    symbol [h].  Its argument plays no part, and what it returns is what
    the solver answered. *)
Lemma nullclines_solves {E X} solve (param : X) (ns : gmap string pyval) :
  binds_symbols ns →
  nullclines (E:=E) solve param ns =
    (let k := sm.Symbol "k" in
     let h := sm.Symbol "h" in
     let rhs s x :=
       sm.Div
         (sm.Add
            (sm.Mul (sm.Mul (sm.Symbol s) (sm.Pow k (sm.Symbol "alpha")))
                    (sm.Pow h (sm.Symbol "phi")))
            (sm.Mul (sm.Sub (sm.Integer 1) (sm.Symbol "delta")) x))
         (sm.Mul (sm.Add (sm.Integer 1) (sm.Symbol "n"))
                 (sm.Add (sm.Integer 1) (sm.Symbol "g"))) in
     nullcline_k ← solve (sm.Eq (sm.Integer 0) (sm.Sub k (rhs "s_K" k))) h;
     nullcline_h ← solve (sm.Eq (sm.Integer 0) (sm.Sub h (rhs "s_H" h))) h;
     Ok (nullcline_k, nullcline_h),
     ns).
Proof.
  intros Hns. unfold binds_symbols, module_symbols in Hns.
  repeat (apply Forall_cons in Hns as [? Hns]).
  cbv [nullclines mbind M_bind sm_Eq binop name int mret M_ret lift
       sm.symbols] in *.
  repeat (match goal with H : ns !! _ = Some _ |- _ => rewrite H end;
          cbv beta iota).
  cbn [sm.lhs sm.rhs].
  destruct (solve (sm.Eq _ (sm.Sub (sm.Symbol "k") _)) _) as [nk|e];
    [|reflexivity].
  cbv beta iota.
  destruct (solve _ _) as [nh|e]; reflexivity.
Qed.


(** * The claims *)

Section Claims.
Context {F E : Type} `{!HostMath F E}.
Implicit Types (s_K s_H n delta alpha phi g : F) (T t : Z).
Implicit Types (k h : list F).

Lemma lookup_getitem k t (x : F) :
  0 ≤ t → k !! Z.to_nat t = Some x → getitem (E:=E) k t = Ok x.
Proof. intros Ht Hx. rewrite getitem_nonneg by done. by rewrite Hx. Qed.

(** C1. For every call [capital(s_K, s_H, n, delta, alpha, phi, k0, h0, T, g)]
    with [T >= 1] that returns [(k, h)], and for every [t] in [1..T-1],
    [k[t]] is [(s_K·k[t-1]^alpha·h[t-1]^phi + (1-delta)·k[t-1]) / (1+n+g)]
    and [h[t]] is [(s_H·k[t-1]^alpha·h[t-1]^phi + (1-delta)·h[t-1]) / (1+n+g)],
    both computed in the arithmetic of the host. *)
Theorem capital_recurrence s_K s_H n delta alpha phi (k0 h0 : F) T g k h t :
  1 ≤ T →
  capital s_K s_H n delta alpha phi k0 h0 T g = Ok (k, h) →
  1 ≤ t ≤ T - 1 →
  ∃ kp hp kt ht,
    getitem (E:=E) k (t - 1) = Ok kp ∧ getitem (E:=E) h (t - 1) = Ok hp ∧
    getitem (E:=E) k t = Ok kt ∧ getitem (E:=E) h t = Ok ht ∧
    update_rule s_K n delta alpha phi g kp hp kp = Ok kt ∧
    update_rule s_H n delta alpha phi g kp hp hp = Ok ht.
Proof.
  intros _ Hc Ht.
  apply capital_Ok in Hc as (_ & _ & _ & _ & _ & Hrule).
  destruct (Hrule t Ht) as (kp & hp & kt & ht & Hkp & Hhp & Hkt & Hht & Hk & Hh).
  exists kp, hp, kt, ht.
  split_and!; try done; apply lookup_getitem; (done || lia).
Qed.

(** C3. For every [T >= 1] the arrays returned by [capital] have
    [k[0] = k0] and [h[0] = h0]; for [T = 1] the call returns [[k0]] and
    [[h0]]. *)
Theorem capital_initial_condition s_K s_H n delta alpha phi (k0 h0 : F) T g :
  1 ≤ T →
  (∀ k h, capital s_K s_H n delta alpha phi k0 h0 T g = Ok (k, h) →
          getitem (E:=E) k 0 = Ok k0 ∧ getitem (E:=E) h 0 = Ok h0) ∧
  (T = 1 → capital s_K s_H n delta alpha phi k0 h0 T g = Ok ([k0], [h0])).
Proof.
  intros HT. split.
  - intros k h Hc.
    apply capital_Ok in Hc as (_ & _ & _ & Hk0 & Hh0 & _).
    cbn [fst snd] in *. split; by apply lookup_getitem.
  - intros ->. reflexivity.
Qed.

(** C4. For every [T >= 1] both arrays returned by [capital] have length
    exactly [T]. *)
Theorem capital_length s_K s_H n delta alpha phi (k0 h0 : F) T g k h :
  1 ≤ T →
  capital s_K s_H n delta alpha phi k0 h0 T g = Ok (k, h) →
  Z.of_nat (length k) = T ∧ Z.of_nat (length h) = T.
Proof.
  intros HT Hc.
  apply capital_Ok in Hc as (_ & Hlk & Hlh & _).
  cbn [fst snd] in *. lia.
Qed.

(** C5. Two runs of [capital] on the same arguments return the same
    arrays, and entry [t] is a function of entry [t-1] and of the
    parameters only: in any two runs with the same parameters, whatever
    their initial conditions, horizons and positions [t], [t'], equal
    entries at [t-1] and [t'-1] are followed by equal entries at [t] and
    [t']. *)
Theorem capital_previous_step_only s_K s_H n delta alpha phi (k0 h0 : F) T g :
  (∀ r1 r2,
     capital (E:=E) s_K s_H n delta alpha phi k0 h0 T g = r1 →
     capital (E:=E) s_K s_H n delta alpha phi k0 h0 T g = r2 → r1 = r2) ∧
  (∀ (k0' h0' : F) T' k h k' h' t t',
     capital s_K s_H n delta alpha phi k0 h0 T g = Ok (k, h) →
     capital s_K s_H n delta alpha phi k0' h0' T' g = Ok (k', h') →
     1 ≤ t ≤ T - 1 → 1 ≤ t' ≤ T' - 1 →
     getitem (E:=E) k (t - 1) = getitem k' (t' - 1) →
     getitem (E:=E) h (t - 1) = getitem h' (t' - 1) →
     getitem (E:=E) k t = getitem k' t' ∧
     getitem (E:=E) h t = getitem h' t').
Proof.
  split; [by intros r1 r2 <- <-|].
  intros k0' h0' T' k h k' h' t t' Hc Hc' Ht Ht' Hk Hh.
  apply capital_Ok in Hc as (_ & _ & _ & _ & _ & Hrule).
  apply capital_Ok in Hc' as (_ & _ & _ & _ & _ & Hrule').
  cbn [fst snd] in *.
  destruct (Hrule t Ht) as (kp & hp & kt & ht & Hkp & Hhp & Hkt & Hht & Hx & Hy).
  destruct (Hrule' t' Ht') as (kp' & hp' & kt' & ht' & Hkp' & Hhp' & Hkt' & Hht' & Hx' & Hy').
  rewrite (lookup_getitem k (t - 1) kp), (lookup_getitem k' (t' - 1) kp') in Hk
    by (done || lia).
  rewrite (lookup_getitem h (t - 1) hp), (lookup_getitem h' (t' - 1) hp') in Hh
    by (done || lia).
  injection Hk as <-. injection Hh as <-.
  rewrite (lookup_getitem k t kt), (lookup_getitem k' t' kt') by (done || lia).
  rewrite (lookup_getitem h t ht), (lookup_getitem h' t' ht') by (done || lia).
  split; congruence.
Qed.

(** C6. [capital] validates nothing and handles no error of its own.
    For every [T >= 1]: with [T = 1] no operator is applied and the call
    returns [[k0]] and [[h0]], whatever the parameters, also when [1+n+g]
    is zero; the entries of returned arrays are the pairs of the run of
    the update rule; an exception the call ends with is one that a power
    or the division of the host raised when the rule was applied to a pair
    of that run, handed on as it is; and the call returns whenever the host
    divides by [1+n+g] without raising and raises on no power
    [k[t-1]^alpha], [h[t-1]^phi] of the run.  Whether a zero divisor raises
    is the host's matter: numpy's float64 does not. *)
Theorem capital_only_host_failures s_K s_H n delta alpha phi (k0 h0 : F) T g :
  1 ≤ T →
  (T = 1 →
   capital (E:=E) s_K s_H n delta alpha phi k0 h0 T g = Ok ([k0], [h0])) ∧
  (∀ k h,
     capital (E:=E) s_K s_H n delta alpha phi k0 h0 T g = Ok (k, h) →
     ∀ t : nat, Z.of_nat t < T →
       ∃ kt ht,
         getitem (E:=E) k (Z.of_nat t) = Ok kt ∧
         getitem (E:=E) h (Z.of_nat t) = Ok ht ∧
         pair_at (E:=E) s_K s_H n delta alpha phi g k0 h0 t = Ok (kt, ht)) ∧
  (∀ x,
     capital (E:=E) s_K s_H n delta alpha phi k0 h0 T g = Raise x →
     is_host x ∧
     ∃ (t : nat) kp hp,
       Z.of_nat t < T - 1 ∧
       pair_at (E:=E) s_K s_H n delta alpha phi g k0 h0 t = Ok (kp, hp) ∧
       (update_rule (E:=E) s_K n delta alpha phi g kp hp kp = Raise x ∨
        update_rule (E:=E) s_H n delta alpha phi g kp hp hp = Raise x)) ∧
  ((∀ x, ∃ q, fdiv (E:=E) x (fadd (fadd (of_int 1) n) g) = inr q) →
   (∀ (t : nat) kp hp,
      Z.of_nat t < T - 1 →
      pair_at (E:=E) s_K s_H n delta alpha phi g k0 h0 t = Ok (kp, hp) →
      (∃ p, fpow (E:=E) kp alpha = inr p) ∧
      (∃ p, fpow (E:=E) hp phi = inr p)) →
   ∃ k h, capital (E:=E) s_K s_H n delta alpha phi k0 h0 T g = Ok (k, h)).
Proof.
  intros HT.
  pose proof (capital_run s_K s_H n delta alpha phi g k0 h0 T HT) as Hrun.
  split_and!.
  - intros ->. reflexivity.
  - intros k h Hc t Ht.
    destruct (capital_entries _ _ _ _ _ _ _ _ _ _ _ _ Hc t Ht)
      as (kt & ht & Hkt & Hht & Hp).
    exists kt, ht. split_and!; [| |done];
      apply lookup_getitem; (lia || by rewrite Nat2Z.id).
  - intros x Hc. rewrite Hc in Hrun.
    destruct Hrun as (t & kp & hp & Ht & Hp & Hr). split.
    + destruct Hr as [Hr|Hr]; by eapply update_rule_Raise.
    + by exists t, kp, hp.
  - intros Hdiv Hpow.
    destruct (capital _ _ _ _ _ _ _ _ _ _) as [[k h]|x]; [by exists k, h|].
    destruct Hrun as (t & kp & hp & Ht & Hp & Hr).
    destruct (Hpow t kp hp Ht Hp) as [Hpk Hph].
    destruct (update_rule_returns n delta alpha phi g s_K kp hp kp Hdiv Hpk Hph)
      as [r Hr1].
    destruct (update_rule_returns n delta alpha phi g s_H kp hp hp Hdiv Hpk Hph)
      as [r' Hr2].
    destruct Hr as [Hr|Hr]; congruence.
Qed.

(** C8. For [T = 0] the assignment [k[0] = k0] indexes an empty array and
    the call raises [IndexError]; a call that returns has [T >= 1]. *)
Theorem capital_T_zero s_K s_H n delta alpha phi (k0 h0 : F) g :
  capital (E:=E) s_K s_H n delta alpha phi k0 h0 0 g = Raise IndexError ∧
  (∀ T k h, capital s_K s_H n delta alpha phi k0 h0 T g = Ok (k, h) →
            1 ≤ T).
Proof.
  split; [reflexivity|].
  intros T k h Hc. by apply capital_Ok in Hc as [? _].
Qed.

(** C10. With [s_K = s_H] and [k0 = h0], every [T >= 1] and every [t] in
    [0..T-1], the returned arrays hold the same value at [t]. *)
Theorem capital_symmetric s_K s_H n delta alpha phi (k0 h0 : F) T g k h t :
  s_K = s_H → k0 = h0 →
  1 ≤ T →
  capital s_K s_H n delta alpha phi k0 h0 T g = Ok (k, h) →
  0 ≤ t ≤ T - 1 →
  ∃ v, getitem (E:=E) k t = Ok v ∧ getitem (E:=E) h t = Ok v.
Proof.
  intros <- <- HT Hc Ht.
  apply capital_Ok in Hc as (_ & _ & _ & Hk0 & Hh0 & Hrule).
  cbn [fst snd] in *.
  assert (Hsame : ∀ i : nat, Z.of_nat i ≤ T - 1 →
            ∃ v, k !! i = Some v ∧ h !! i = Some v).
  { induction i as [|i IH]; intros Hi.
    - by exists k0.
    - destruct IH as (v & Hkv & Hhv); [lia|].
      destruct (Hrule (Z.of_nat (S i))) as
        (kp & hp & kt & ht & Hkp & Hhp & Hkt & Hht & Hx & Hy); [lia|].
      replace (Z.to_nat (Z.of_nat (S i) - 1)) with i in * by lia.
      rewrite Nat2Z.id in Hkt, Hht.
      assert (kp = v) as -> by congruence.
      assert (hp = v) as -> by congruence.
      exists kt. split; [done|]. congruence. }
  destruct (Hsame (Z.to_nat t)) as (v & Hkv & Hhv); [lia|].
  exists v. split; apply lookup_getitem; (done || lia).
Qed.

(** C7. No call to [nullclines], [aevaluation] or [capital] changes the
    module namespace: whatever the namespace and the outcome of the call,
    the names [k], [h], [alpha], [delta], [phi], [s_K], [s_H], [g], [n]
    and [param] are bound afterwards as they were before. *)
Theorem calls_preserve_namespace {X Y : Type}
    (solve : sm.equation → sm.expr → result E (list sm.expr))
    (generated : sm.expr → sm.expr)
    (param : X) (x : Y) s_K s_H n delta alpha phi (k0 h0 : F) T g
    (ns : gmap string pyval) :
  (nullclines solve param ns).2 = ns ∧
  (aevaluation (F:=F) (E:=E) generated x ns).2 = ns ∧
  (lift (capital (E:=E) s_K s_H n delta alpha phi k0 h0 T g) ns).2 = ns.
Proof.
  split_and!.
  - apply nullclines_read_only.
  - apply aevaluation_read_only.
  - apply read_only_lift.
Qed.

End Claims.

(** * The claims on concrete runs *)

Lemma capital_recurrence_witness :
  exact.run 1%Q 2%Q 3 = Ok ([1; 115 # 104; 13225 # 10816], [2; 105 # 52; 11125 # 5408])%Q ∧
  ∃ kp hp kt ht : Q,
    getitem (E:=exact.error) [1; 115 # 104; 13225 # 10816]%Q (2 - 1) = Ok kp ∧
    getitem (E:=exact.error) [2; 105 # 52; 11125 # 5408]%Q (2 - 1) = Ok hp ∧
    getitem (E:=exact.error) [1; 115 # 104; 13225 # 10816]%Q 2 = Ok kt ∧
    getitem (E:=exact.error) [2; 105 # 52; 11125 # 5408]%Q 2 = Ok ht ∧
    update_rule (1 # 5)%Q (1 # 50)%Q (1 # 20)%Q 1%Q 0%Q (1 # 50)%Q kp hp kp = Ok kt ∧
    update_rule (1 # 5)%Q (1 # 50)%Q (1 # 20)%Q 1%Q 0%Q (1 # 50)%Q kp hp hp = Ok ht.
Proof.
  split; [vm_compute; reflexivity|].
  apply (capital_recurrence (1 # 5)%Q (1 # 5)%Q (1 # 50)%Q (1 # 20)%Q 1%Q 0%Q 1%Q 2%Q 3 (1 # 50)%Q).
  - lia.
  - vm_compute. reflexivity.
  - lia.
Defined.

Lemma capital_initial_condition_witness :
  exact.run 1%Q 2%Q 3 = Ok ([1; 115 # 104; 13225 # 10816], [2; 105 # 52; 11125 # 5408])%Q ∧
  (getitem (E:=exact.error) [1; 115 # 104; 13225 # 10816]%Q 0 = Ok 1%Q ∧
   getitem (E:=exact.error) [2; 105 # 52; 11125 # 5408]%Q 0 = Ok 2%Q) ∧
  exact.run 1%Q 2%Q 1 = Ok ([1], [2])%Q.
Proof.
  split; [|split].
  - vm_compute. reflexivity.
  - apply (proj1 (capital_initial_condition
                    (1 # 5)%Q (1 # 5)%Q (1 # 50)%Q (1 # 20)%Q 1%Q 0%Q 1%Q 2%Q 3 (1 # 50)%Q
                    ltac:(lia))).
    vm_compute. reflexivity.
  - apply (proj2 (capital_initial_condition
                    (1 # 5)%Q (1 # 5)%Q (1 # 50)%Q (1 # 20)%Q 1%Q 0%Q 1%Q 2%Q 1 (1 # 50)%Q
                    ltac:(lia))).
    reflexivity.
Defined.

Lemma capital_length_witness :
  exact.run 1%Q 2%Q 3 = Ok ([1; 115 # 104; 13225 # 10816], [2; 105 # 52; 11125 # 5408])%Q ∧
  Z.of_nat (length [1; 115 # 104; 13225 # 10816]%Q) = 3 ∧
  Z.of_nat (length [2; 105 # 52; 11125 # 5408]%Q) = 3.
Proof.
  split; [vm_compute; reflexivity|].
  apply (capital_length (1 # 5)%Q (1 # 5)%Q (1 # 50)%Q (1 # 20)%Q 1%Q 0%Q 1%Q 2%Q 3 (1 # 50)%Q).
  - lia.
  - vm_compute. reflexivity.
Defined.

(** The second run starts where the first one is at [t = 1]; its entry 1 is
    entry 2 of the first. *)
Lemma capital_previous_step_only_witness :
  exact.run 1%Q 2%Q 3 = Ok ([1; 115 # 104; 13225 # 10816], [2; 105 # 52; 11125 # 5408])%Q ∧
  exact.run (115 # 104)%Q (105 # 52)%Q 2
    = Ok ([115 # 104; 13225 # 10816], [105 # 52; 11125 # 5408])%Q ∧
  getitem (E:=exact.error) [1; 115 # 104; 13225 # 10816]%Q 2
    = getitem [115 # 104; 13225 # 10816]%Q 1 ∧
  getitem (E:=exact.error) [2; 105 # 52; 11125 # 5408]%Q 2
    = getitem [105 # 52; 11125 # 5408]%Q 1.
Proof.
  split; [vm_compute; reflexivity|]. split; [vm_compute; reflexivity|].
  apply (proj2 (capital_previous_step_only
                  (1 # 5)%Q (1 # 5)%Q (1 # 50)%Q (1 # 20)%Q 1%Q 0%Q 1%Q 2%Q 3 (1 # 50)%Q)
           (115 # 104)%Q (105 # 52)%Q 2).
  - vm_compute. reflexivity.
  - vm_compute. reflexivity.
  - lia.
  - lia.
  - vm_compute. reflexivity.
  - vm_compute. reflexivity.
Defined.

(** On the exact host, whose division refuses a zero divisor: one period
    returns, three periods with a divisor that is not zero return the run
    of the rule, two periods with the zero divisor end with the exception
    of the division; on binary64 these two periods return. *)
Lemma capital_only_host_failures_witness :
  exact.run_zero_divisor 1%Q 2%Q 1 = Ok ([1], [2])%Q ∧
  (∃ kt ht : Q,
     getitem (E:=exact.error) [1; 115 # 104; 13225 # 10816]%Q (Z.of_nat 2)
       = Ok kt ∧
     getitem (E:=exact.error) [2; 105 # 52; 11125 # 5408]%Q (Z.of_nat 2)
       = Ok ht ∧
     pair_at (E:=exact.error) (1 # 5)%Q (1 # 5)%Q (1 # 50)%Q (1 # 20)%Q 1%Q 0%Q
       (1 # 50)%Q 1%Q 2%Q 2 = Ok (kt, ht)) ∧
  (is_host (HostError exact.ZeroDivisionError) ∧
   ∃ (t : nat) (kp hp : Q),
     Z.of_nat t < 2 - 1 ∧
     pair_at (E:=exact.error) (1 # 5)%Q (1 # 5)%Q (-1)%Q (1 # 20)%Q 1%Q 0%Q 0%Q
       1%Q 2%Q t = Ok (kp, hp) ∧
     (update_rule (1 # 5)%Q (-1)%Q (1 # 20)%Q 1%Q 0%Q 0%Q kp hp kp
        = Raise (HostError exact.ZeroDivisionError) ∨
      update_rule (1 # 5)%Q (-1)%Q (1 # 20)%Q 1%Q 0%Q 0%Q kp hp hp
        = Raise (HostError exact.ZeroDivisionError))) ∧
  ∃ k h, binary64.run_zero_divisor 1%float 2%float 2 = Ok (k, h).
Proof.
  split; [|split; [|split]].
  - apply (proj1 (capital_only_host_failures
                    (1 # 5)%Q (1 # 5)%Q (-1)%Q (1 # 20)%Q 1%Q 0%Q 1%Q 2%Q 1 0%Q
                    ltac:(lia))).
    reflexivity.
  - apply (proj1 (proj2 (capital_only_host_failures
                    (1 # 5)%Q (1 # 5)%Q (1 # 50)%Q (1 # 20)%Q 1%Q 0%Q 1%Q 2%Q 3
                    (1 # 50)%Q ltac:(lia)))).
    + vm_compute. reflexivity.
    + lia.
  - apply (proj1 (proj2 (proj2 (capital_only_host_failures
                    (1 # 5)%Q (1 # 5)%Q (-1)%Q (1 # 20)%Q 1%Q 0%Q 1%Q 2%Q 2 0%Q
                    ltac:(lia))))).
    vm_compute. reflexivity.
  - apply (proj2 (proj2 (proj2 (capital_only_host_failures
                    0.2%float 0.2%float (-1)%float 0.05%float 1%float 0%float
                    1%float 2%float 2 0%float ltac:(lia))))).
    + intros x. eexists. reflexivity.
    + intros t kp hp Ht Hp. split.
      * cbn. unfold binary64.pow.
        change (PrimFloat.eqb 1 0) with false.
        change (PrimFloat.eqb 1 1) with true.
        destruct (PrimFloat.eqb kp 1); eexists; reflexivity.
      * eexists. reflexivity.
Defined.

(** C6 as the specification words it has the call fail with a division by
    zero exactly when [1+n+g] is zero.  On the floats of the program it
    does not fail: [capital(0.2, 0.2, -1, 0.05, 1, 0, 1, 2, 2, 0)] divides
    by zero in both lines of its one iteration and returns the arrays
    [[1, inf]] and [[2, inf]]; and with [T = 1] nothing is divided at all,
    on any host. *)
Lemma capital_returns_on_zero_divisor :
  fadd (fadd (of_int (F:=float) (E:=binary64.error) 1) (-1)%float) 0%float
    = 0%float ∧
  binary64.run_zero_divisor 1%float 2%float 2
    = Ok ([1; infinity], [2; infinity])%float ∧
  exact.run_zero_divisor 1%Q 2%Q 1 = Ok ([1], [2])%Q.
Proof. split_and!; vm_compute; reflexivity. Qed.


Lemma capital_T_zero_witness :
  exact.run 1%Q 2%Q 0 = Raise IndexError ∧
  exact.run 1%Q 2%Q 1 = Ok ([1], [2])%Q ∧ 1 ≤ 1.
Proof.
  split_and!.
  - apply (proj1 (capital_T_zero (E:=exact.error)
                    (1 # 5)%Q (1 # 5)%Q (1 # 50)%Q (1 # 20)%Q 1%Q 0%Q 1%Q 2%Q (1 # 50)%Q)).
  - reflexivity.
  - apply (proj2 (capital_T_zero (E:=exact.error)
                    (1 # 5)%Q (1 # 5)%Q (1 # 50)%Q (1 # 20)%Q 1%Q 0%Q 1%Q 2%Q (1 # 50)%Q)
             1 [1%Q] [2%Q]).
    reflexivity.
Defined.

Lemma capital_symmetric_witness :
  exact.run 1%Q 1%Q 3 = Ok ([1; 115 # 104; 13225 # 10816], [1; 115 # 104; 13225 # 10816])%Q ∧
  ∃ v : Q,
    getitem (E:=exact.error) [1; 115 # 104; 13225 # 10816]%Q 2 = Ok v ∧
    getitem (E:=exact.error) [1; 115 # 104; 13225 # 10816]%Q 2 = Ok v.
Proof.
  split; [vm_compute; reflexivity|].
  apply (capital_symmetric (1 # 5)%Q (1 # 5)%Q (1 # 50)%Q (1 # 20)%Q 1%Q 0%Q 1%Q 1%Q 3 (1 # 50)%Q).
  - reflexivity.
  - reflexivity.
  - lia.
  - vm_compute. reflexivity.
  - lia.
Defined.

(** * Further properties of [capital] *)

Section Paths.
Context {F E : Type} `{!HostMath F E}.
Implicit Types (s_K s_H n delta alpha phi g : F) (T t : Z).
Implicit Types (k h : list F).

(** The loop rebuilds any pair of arrays that follows the rule: started in
    arrays that hold the first [a] cells of [k] and [h], iterations
    [a .. a+m-1] return arrays that hold the first [a+m] cells and are
    otherwise as they were. *)
Lemma loop_complete s_K s_H n delta alpha phi g k h (N m : nat) :
  ∀ (a : Z) (kc hc : list F),
    1 ≤ a → a + Z.of_nat m ≤ Z.of_nat N →
    length k = N → length h = N → length kc = N → length hc = N →
    (∀ t, a ≤ t ≤ a + Z.of_nat m - 1 →
          follows_rule s_K s_H n delta alpha phi g k h t) →
    (∀ i : nat, Z.of_nat i < a → kc !! i = k !! i ∧ hc !! i = h !! i) →
    ∃ kc' hc',
      for_each (seqZ a (Z.of_nat m))
        (capital_body s_K s_H n delta alpha phi g) (kc, hc) = Ok (kc', hc') ∧
      length kc' = N ∧ length hc' = N ∧
      (∀ i : nat, Z.of_nat i < a + Z.of_nat m →
                  kc' !! i = k !! i ∧ hc' !! i = h !! i).
Proof.
  induction m as [|m IH]; intros a kc hc Ha HN Hlk Hlh Hlkc Hlhc Hrule Hagree.
  - exists kc, hc. split_and!; try done.
    intros i Hi. apply Hagree. lia.
  - rewrite seqZ_cons by lia. cbn [for_each].
    destruct (Hrule a) as (kp & hp & kt & ht & Hkp & Hhp & Hkt & Hht & Hx & Hy);
      [lia|].
    destruct (Hagree (Z.to_nat (a - 1))) as [Hka Hha]; [lia|].
    rewrite (capital_body_eq _ _ _ _ _ _ _ a kc hc kp hp)
      by (lia || congruence).
    rewrite Hx, Hy. cbn [mbind result_bind].
    replace (Z.pred (Z.of_nat (S m))) with (Z.of_nat m) by lia.
    destruct (IH (Z.succ a) (<[Z.to_nat a := kt]> kc) (<[Z.to_nat a := ht]> hc))
      as (kc' & hc' & Hloop & Hlkc' & Hlhc' & Hagree');
      [lia|lia|done|done|by rewrite length_insert..|idtac|idtac|idtac].
    + intros t Ht. apply Hrule. lia.
    + intros i Hi. destruct (decide (i = Z.to_nat a)) as [->|Hne].
      * rewrite !list_lookup_insert_eq by lia. by rewrite Hkt, Hht.
      * rewrite !list_lookup_insert_ne by done. apply Hagree. lia.
    + exists kc', hc'. split_and!; try done.
      intros i Hi. apply Hagree'. lia.
Qed.

(** Completeness: arrays of length [T] that start at the initial condition
    and follow the rule are what [capital] returns. *)
Lemma capital_complete s_K s_H n delta alpha phi (k0 h0 : F) T g k h :
  1 ≤ T →
  loop_inv s_K s_H n delta alpha phi g k0 h0 (Z.to_nat T) (T - 1) (k, h) →
  capital s_K s_H n delta alpha phi k0 h0 T g = Ok (k, h).
Proof.
  intros HT (Hlk & Hlh & Hk0 & Hh0 & Hrule). cbn [fst snd] in *.
  rewrite capital_unfold by done.
  destruct (loop_complete s_K s_H n delta alpha phi g k h
              (Z.to_nat T) (Z.to_nat (T - 1)) 1
              (<[0%nat := k0]> (replicate (Z.to_nat T) (of_int 0)))
              (<[0%nat := h0]> (replicate (Z.to_nat T) (of_int 0))))
    as (kc' & hc' & Hloop & Hlkc' & Hlhc' & Hagree);
    [lia|lia|done|done|(by rewrite length_insert, length_replicate)..
    |idtac|idtac|idtac].
  - intros t Ht. apply Hrule. lia.
  - intros i Hi. assert (i = 0%nat) as -> by lia.
    rewrite !list_lookup_insert_eq by (rewrite length_replicate; lia).
    by rewrite Hk0, Hh0.
  - rewrite Hloop. f_equal. f_equal.
    + apply list_eq. intros i. destruct (decide (i < Z.to_nat T)%nat).
      * apply Hagree. lia.
      * rewrite !lookup_ge_None_2 by lia. done.
    + apply list_eq. intros i. destruct (decide (i < Z.to_nat T)%nat).
      * apply Hagree. lia.
      * rewrite !lookup_ge_None_2 by lia. done.
Qed.
End Paths.

Section PathProperties.
Context {F E : Type} `{!HostMath F E}.
Implicit Types (s_K s_H n delta alpha phi g : F) (T t : Z).
Implicit Types (k h : list F).

(** X1. [capital] returns exactly the arrays the rule determines: arrays
    of length [T >= 1] that start at [k0] and [h0] and whose every later
    entry is the update rule of the entry before are what the call
    returns; in particular the call does return. *)
Theorem capital_rebuilds_path s_K s_H n delta alpha phi (k0 h0 : F) T g k h :
  1 ≤ T →
  Z.of_nat (length k) = T → Z.of_nat (length h) = T →
  k !! 0%nat = Some k0 → h !! 0%nat = Some h0 →
  (∀ t, 1 ≤ t ≤ T - 1 → follows_rule s_K s_H n delta alpha phi g k h t) →
  capital (E:=E) s_K s_H n delta alpha phi k0 h0 T g = Ok (k, h).
Proof.
  intros HT Hlk Hlh Hk0 Hh0 Hrule.
  apply capital_complete; [done|].
  split_and!; cbn [fst snd]; try done; lia.
Qed.

(** X2. A shorter horizon gives a prefix: when the call with horizon [T']
    returns, the call with any horizon [1 <= T <= T'] returns too, and
    returns the first [T] entries of the same arrays. *)
Theorem capital_prefix s_K s_H n delta alpha phi (k0 h0 : F) T T' g k' h' :
  capital s_K s_H n delta alpha phi k0 h0 T' g = Ok (k', h') →
  1 ≤ T ≤ T' →
  capital (E:=E) s_K s_H n delta alpha phi k0 h0 T g
    = Ok (take (Z.to_nat T) k', take (Z.to_nat T) h').
Proof.
  intros Hc HT.
  apply capital_Ok in Hc as (_ & Hlk & Hlh & Hk0 & Hh0 & Hrule).
  cbn [fst snd] in *.
  apply capital_complete; [lia|].
  split_and!; cbn [fst snd].
  - rewrite length_take. lia.
  - rewrite length_take. lia.
  - rewrite lookup_take_lt by lia. done.
  - rewrite lookup_take_lt by lia. done.
  - intros t Ht.
    destruct (Hrule t) as (kp & hp & kt & ht & ? & ? & ? & ? & ? & ?); [lia|].
    exists kp, hp, kt, ht.
    rewrite !lookup_take_lt by lia. done.
Qed.

(** X3. A steady state stays where it is: when the update rule maps
    [(k0, h0)] to itself, the call returns the two constant arrays, for
    every horizon [T >= 1]. *)
Theorem capital_steady_state s_K s_H n delta alpha phi (k0 h0 : F) T g :
  update_rule (E:=E) s_K n delta alpha phi g k0 h0 k0 = Ok k0 →
  update_rule (E:=E) s_H n delta alpha phi g k0 h0 h0 = Ok h0 →
  1 ≤ T →
  capital (E:=E) s_K s_H n delta alpha phi k0 h0 T g
    = Ok (replicate (Z.to_nat T) k0, replicate (Z.to_nat T) h0).
Proof.
  intros Hk Hh HT.
  apply capital_complete; [done|].
  split_and!; cbn [fst snd].
  - apply length_replicate.
  - apply length_replicate.
  - apply lookup_replicate_2. lia.
  - apply lookup_replicate_2. lia.
  - intros t Ht. exists k0, h0, k0, h0.
    rewrite !lookup_replicate_2 by lia. done.
Qed.

(** X4. Runs compose: a run of [T1] periods, followed by a run of [T2]
    periods that starts from its last entries, is the run of
    [T1 + T2 - 1] periods; the second run's first entries are the first
    run's last ones and appear once. *)
Theorem capital_restart s_K s_H n delta alpha phi (k0 h0 a b : F) T1 T2 g
    k1 h1 k2 h2 :
  capital s_K s_H n delta alpha phi k0 h0 T1 g = Ok (k1, h1) →
  last k1 = Some a → last h1 = Some b →
  capital s_K s_H n delta alpha phi a b T2 g = Ok (k2, h2) →
  capital (E:=E) s_K s_H n delta alpha phi k0 h0 (T1 + T2 - 1) g
    = Ok (k1 ++ drop 1 k2, h1 ++ drop 1 h2).
Proof.
  intros Hc1 Hla Hlb Hc2.
  apply capital_Ok in Hc1 as (HT1 & Hlk1 & Hlh1 & Hk0 & Hh0 & Hrule1).
  apply capital_Ok in Hc2 as (HT2 & Hlk2 & Hlh2 & Ha & Hb & Hrule2).
  cbn [fst snd] in *.
  rewrite last_lookup in Hla, Hlb.
  rewrite Hlk1 in Hla. rewrite Hlh1 in Hlb.
  apply capital_complete; [lia|].
  split_and!; cbn [fst snd].
  - rewrite length_app, length_drop. lia.
  - rewrite length_app, length_drop. lia.
  - rewrite lookup_app_l by lia. done.
  - rewrite lookup_app_l by lia. done.
  - intros t Ht. destruct (decide (t ≤ T1 - 1)) as [Hin|Hout].
    + destruct (Hrule1 t) as (kp & hp & kt & ht & ? & ? & ? & ? & ? & ?);
        [lia|].
      exists kp, hp, kt, ht. rewrite !lookup_app_l by lia. done.
    + destruct (Hrule2 (t - T1 + 1))
        as (kp & hp & kt & ht & Hkp & Hhp & Hkt & Hht & Hx & Hy); [lia|].
      exists kp, hp, kt, ht.
      replace (Z.to_nat (t - T1 + 1 - 1)) with (Z.to_nat (t - T1)) in * by lia.
      assert ((k1 ++ drop 1 k2) !! Z.to_nat t = Some kt) as ->.
      { rewrite lookup_app_r by lia. rewrite lookup_drop, <- Hkt.
        f_equal. lia. }
      assert ((h1 ++ drop 1 h2) !! Z.to_nat t = Some ht) as ->.
      { rewrite lookup_app_r by lia. rewrite lookup_drop, <- Hht.
        f_equal. lia. }
      destruct (decide (t = T1)) as [->|Hne].
      * replace (Z.to_nat (T1 - T1)) with 0%nat in * by lia.
        rewrite !lookup_app_l by lia.
        replace (Z.to_nat (T1 - 1)) with (Nat.pred (Z.to_nat T1)) by lia.
        rewrite Hla, Hlb. split_and!; try done; congruence.
      * assert ((k1 ++ drop 1 k2) !! Z.to_nat (t - 1) = Some kp) as ->.
        { rewrite lookup_app_r by lia. rewrite lookup_drop, <- Hkp.
          f_equal. lia. }
        assert ((h1 ++ drop 1 h2) !! Z.to_nat (t - 1) = Some hp) as ->.
        { rewrite lookup_app_r by lia. rewrite lookup_drop, <- Hhp.
          f_equal. lia. }
        done.
Qed.

(** X5. Whatever holds of [(k0, h0)] and is kept by one application of the
    update rule holds of every pair [(k[t], h[t])] of a returned run. *)
Theorem capital_invariant (P : F → F → Prop)
    s_K s_H n delta alpha phi (k0 h0 : F) T g k h :
  P k0 h0 →
  (∀ x y x' y',
     P x y →
     update_rule (E:=E) s_K n delta alpha phi g x y x = Ok x' →
     update_rule (E:=E) s_H n delta alpha phi g x y y = Ok y' →
     P x' y') →
  capital s_K s_H n delta alpha phi k0 h0 T g = Ok (k, h) →
  ∀ (i : nat) kt ht, k !! i = Some kt → h !! i = Some ht → P kt ht.
Proof.
  intros HP0 Hstep Hc.
  apply capital_Ok in Hc as (HT & Hlk & Hlh & Hk0 & Hh0 & Hrule).
  cbn [fst snd] in *.
  induction i as [|i IH]; intros kt ht Hkt Hht.
  - congruence.
  - assert (S i < Z.to_nat T)%nat
      by (rewrite <- Hlk; by eapply lookup_lt_Some).
    destruct (Hrule (Z.of_nat (S i)))
      as (kp & hp & kt' & ht' & Hkp & Hhp & Hkt' & Hht' & Hx & Hy); [lia|].
    replace (Z.to_nat (Z.of_nat (S i) - 1)) with i in * by lia.
    rewrite Nat2Z.id in Hkt', Hht'.
    assert (kt' = kt) as -> by congruence.
    assert (ht' = ht) as -> by congruence.
    eapply Hstep; [|done..]. by apply IH.
Qed.
End PathProperties.

(** * Properties of the data project *)

Section FigureFacts.
Context {D V X : Type} `{!pd.Ops D V}.
Implicit Types (nber gdp : pd.DataFrame D V) (fig : list (plt.call D V X)).
Implicit Types (idx : list D) (flags : list V) (axes : list nat).

(** [index[i-1]] for a row [i] of the frame: never out of range, the last
    label for the first row. *)
Lemma getitem_previous {E} idx (i : nat) :
  (i < length idx)%nat →
  getitem (E:=E) idx (Z.of_nat i - 1) =
    match idx !! previous_row (length idx) i with
    | Some a => Ok a
    | None => Raise IndexError
    end.
Proof.
  intros Hi. destruct i as [|j]; cbn [previous_row].
  - unfold getitem, index.
    rewrite bool_decide_eq_false_2 by lia.
    rewrite bool_decide_eq_true_2 by lia. cbn [mbind result_bind].
    by replace (Z.to_nat (Z.of_nat (length idx) + (Z.of_nat 0 - 1)))
      with (length idx - 1)%nat by lia.
  - rewrite getitem_nonneg by lia.
    by replace (Z.to_nat (Z.of_nat (S j) - 1)) with j by lia.
Qed.

Lemma getitem_row {E} {A} (l : list A) (i : nat) (x : A) :
  l !! i = Some x → getitem (E:=E) l (Z.of_nat i) = Ok x.
Proof.
  intros Hx. rewrite getitem_nonneg by lia. by rewrite Nat2Z.id, Hx.
Qed.

Lemma row_band_inv axes idx (i : nat) (v : V) :
  (i < length idx)%nat →
  ∃ a b, idx !! previous_row (length idx) i = Some a ∧ idx !! i = Some b ∧
         row_band (X:=X) axes idx i v = band axes a b v.
Proof.
  intros Hi.
  destruct (lookup_lt_is_Some_2 idx (previous_row (length idx) i)) as [a Ha].
  { destruct i; cbn [previous_row]; lia. }
  destruct (lookup_lt_is_Some_2 idx i) as [b Hb]; [done|].
  exists a, b. unfold row_band. by rewrite Ha, Hb.
Qed.

(** One row of the loop of [figure1]. *)
Lemma figure1_body_row nber flags (i : nat) (v : V) fig :
  pd.columns nber !! "USREC" = Some flags →
  flags !! i = Some v → (i < length (pd.index nber))%nat →
  figure1_body nber (Z.of_nat i) fig
    = (Ok (), fig ++ row_band [0; 1]%nat (pd.index nber) i v).
Proof.
  intros Hcol Hv Hi.
  destruct (row_band_inv [0; 1]%nat (pd.index nber) i v Hi)
    as (a & b & Ha & Hb & ->).
  unfold figure1_body, pd.getcol, pd.iloc, pd.label, band.
  rewrite Hcol.
  cbv [mbind Plt_bind eval_ emit when mret Plt_ret pd.series_values].
  rewrite (getitem_row flags i v Hv).
  destruct (pd.eq_int v 1), (pd.eq_int v 0);
    rewrite ?(getitem_previous _ i Hi), ?Ha, ?(getitem_row _ i b Hb);
    cbn [fmap list_fmap app];
    rewrite <- ?app_assoc; cbn [app]; by rewrite ?app_nil_r.
Qed.

(** One row of the loop of [figure2]. *)
Lemma figure2_body_row nber flags (i : nat) (v : V) fig :
  pd.columns nber !! "USREC" = Some flags →
  flags !! i = Some v → (i < length (pd.index nber))%nat →
  figure2_body nber (Z.of_nat i) fig
    = (Ok (), fig ++ row_band [0]%nat (pd.index nber) i v).
Proof.
  intros Hcol Hv Hi.
  destruct (row_band_inv [0]%nat (pd.index nber) i v Hi)
    as (a & b & Ha & Hb & ->).
  unfold figure2_body, pd.getcol, pd.iloc, pd.label, band.
  rewrite Hcol.
  cbv [mbind Plt_bind eval_ emit when mret Plt_ret pd.series_values].
  rewrite (getitem_row flags i v Hv).
  destruct (pd.eq_int v 1), (pd.eq_int v 0);
    rewrite ?(getitem_previous _ i Hi), ?Ha, ?(getitem_row _ i b Hb);
    cbn [fmap list_fmap app];
    rewrite <- ?app_assoc; cbn [app]; by rewrite ?app_nil_r.
Qed.

(** The loop over the rows [a, a+1, ...] that hold the flags [rest]: it
    never raises and adds the bands of these rows, in order. *)
Lemma shade_rows (body : Z → Plt D V X unit) (row : nat → V → list (plt.call D V X))
    flags :
  (∀ (i : nat) v fig, flags !! i = Some v → body (Z.of_nat i) fig = (Ok (), fig ++ row i v)) →
  ∀ rest (a : nat) fig,
    drop a flags = rest →
    for_ (seqZ (Z.of_nat a) (Z.of_nat (length rest))) body fig
      = (Ok (), fig ++ mjoin (imap (λ j, row (a + j)%nat) rest)).
Proof.
  intros Hbody. induction rest as [|v rest IH]; intros a fig Hdrop.
  - cbn. by rewrite app_nil_r.
  - rewrite seqZ_cons by (cbn [length]; lia). cbn [for_].
    assert (flags !! a = Some v) as Hv.
    { rewrite <- (Nat.add_0_r a), <- lookup_drop, Hdrop. done. }
    cbv [mbind Plt_bind]. rewrite (Hbody a v fig Hv).
    replace (Z.pred (Z.of_nat (length (v :: rest)))) with (Z.of_nat (length rest))
      by (cbn [length]; lia).
    replace (Z.succ (Z.of_nat a)) with (Z.of_nat (S a)) by lia.
    rewrite (IH (S a)).
    + cbn [imap mjoin list_join]. rewrite Nat.add_0_r, <- app_assoc.
      erewrite imap_ext; [reflexivity|].
      intros j x _. cbn. f_equal. lia.
    + erewrite drop_S in Hdrop by done. by injection Hdrop.
Qed.
End FigureFacts.

Section FigureLoops.
Context {D V X : Type} `{!pd.Ops D V}.
Implicit Types (nber gdp : pd.DataFrame D V) (fig : list (plt.call D V X)).
Implicit Types (idx : list D) (flags : list V) (axes : list nat).

Lemma figure1_loop nber flags fig :
  pd.wf nber → pd.columns nber !! "USREC" = Some flags →
  for_ (range 0 (pd.len nber)) (figure1_body nber) fig
    = (Ok (), fig ++ recession_bands [0; 1]%nat (pd.index nber) flags).
Proof.
  intros Hwf Hcol. unfold range, pd.len.
  rewrite <- (Hwf _ _ Hcol), Z.sub_0_r.
  apply (shade_rows (figure1_body nber)
           (row_band [0; 1]%nat (pd.index nber)) flags) with (a := 0%nat);
    [|done].
  intros i v fig' Hv. apply (figure1_body_row nber flags); [done..|].
  rewrite <- (Hwf _ _ Hcol). by eapply lookup_lt_Some.
Qed.

Lemma figure2_loop nber flags fig :
  pd.wf nber → pd.columns nber !! "USREC" = Some flags →
  for_ (range 0 (pd.len nber)) (figure2_body nber) fig
    = (Ok (), fig ++ recession_bands [0]%nat (pd.index nber) flags).
Proof.
  intros Hwf Hcol. unfold range, pd.len.
  rewrite <- (Hwf _ _ Hcol), Z.sub_0_r.
  apply (shade_rows (figure2_body nber)
           (row_band [0]%nat (pd.index nber)) flags) with (a := 0%nat);
    [|done].
  intros i v fig' Hv. apply (figure2_body_row nber flags); [done..|].
  rewrite <- (Hwf _ _ Hcol). by eapply lookup_lt_Some.
Qed.

Lemma filter_all {A} (P : A → Prop) `{!∀ x, Decision (P x)} (l : list A) :
  Forall P l → filter P l = l.
Proof.
  induction 1 as [|x l Hx _ IH]; [done|].
  by rewrite filter_cons_True, IH.
Qed.

Lemma Forall_join_imap {A B} (P : B → Prop) (l : list A) :
  ∀ f : nat → A → list B,
    (∀ i v, Forall P (f i v)) → Forall P (mjoin (imap f l)).
Proof.
  induction l as [|x l IH]; intros f Hf; cbn; [constructor|].
  apply Forall_app. split; [apply Hf|]. apply IH. intros i v. apply Hf.
Qed.

Lemma band_is_axvspan axes (a b : D) (v : V) :
  Forall (λ c, plt.is_axvspan c) (band (X:=X) axes a b v).
Proof.
  unfold band. apply Forall_app.
  split; destruct (pd.eq_int v _); try constructor;
    apply Forall_fmap, Forall_true; intros ax; exact I.
Qed.

Lemma bands_are_axvspan axes idx flags :
  Forall (λ c, plt.is_axvspan c) (recession_bands (X:=X) axes idx flags).
Proof.
  apply Forall_join_imap. intros i v. unfold row_band.
  destruct (idx !! _); [|constructor].
  destruct (idx !! _); [|constructor].
  apply band_is_axvspan.
Qed.
Lemma length_band axes (a b : D) (v : V) :
  length (band (X:=X) axes a b v)
    = (length axes * ((if pd.eq_int v 1 then 1 else 0)
                      + (if pd.eq_int v 0 then 1 else 0)))%nat.
Proof.
  unfold band. rewrite length_app.
  destruct (pd.eq_int v 1), (pd.eq_int v 0);
    rewrite ?length_fmap; cbn [length]; lia.
Qed.

Lemma length_join_imap {A B} (w : A → nat) (l : list A) :
  ∀ f : nat → A → list B,
    (∀ i v, l !! i = Some v → length (f i v) = w v) →
    length (mjoin (imap f l)) = sum_list (w <$> l).
Proof.
  induction l as [|x l IH]; intros f Hf; cbn; [done|].
  rewrite length_app, (Hf 0%nat x) by done.
  f_equal. apply IH. intros i v Hv. by apply (Hf (S i)).
Qed.

Lemma sum_list_flags (n : nat) flags :
  sum_list ((λ v, n * ((if pd.eq_int v 1 then 1 else 0)
                       + (if pd.eq_int v 0 then 1 else 0)))%nat <$> flags)
    = (n * (length (filter (λ v, pd.eq_int v 1) flags)
            + length (filter (λ v, pd.eq_int v 0) flags)))%nat.
Proof.
  induction flags as [|v flags IH]; cbn [fmap list_fmap sum_list sum_list_with].
  - cbn. lia.
  - change (foldr Nat.add 0%nat ?l) with (sum_list l) in *.
    rewrite !filter_cons.
    destruct (pd.eq_int v 1), (pd.eq_int v 0); cbn [decide_rel decide];
      repeat case_decide; try done; cbn [length] in *; cbn in *; lia.
Qed.

Lemma length_recession_bands axes idx flags :
  (length flags ≤ length idx)%nat →
  length (recession_bands (X:=X) axes idx flags)
    = (length axes * (length (filter (λ v, pd.eq_int v 1) flags)
                      + length (filter (λ v, pd.eq_int v 0) flags)))%nat.
Proof.
  intros Hlen. unfold recession_bands.
  rewrite <- sum_list_flags. apply length_join_imap.
  intros i v Hv.
  destruct (row_band_inv (X:=X) axes idx i v) as (a & b & _ & _ & ->).
  { apply lookup_lt_Some in Hv. lia. }
  apply length_band.
Qed.

Lemma filter_join_imap {A B} (P : B → Prop) `{!∀ x, Decision (P x)}
    (l : list A) :
  ∀ f : nat → A → list B,
    filter P (mjoin (imap f l)) = mjoin (imap (λ i v, filter P (f i v)) l).
Proof.
  induction l as [|x l IH]; intros f; cbn; [done|].
  rewrite filter_app. f_equal. apply IH.
Qed.

Lemma row_band_first_axis idx (i : nat) (v : V) :
  filter (λ c, plt.is_axvspan_on 0 c) (row_band (X:=X) [0; 1]%nat idx i v)
    = row_band [0]%nat idx i v.
Proof.
  unfold row_band. destruct (idx !! _); [|done]. destruct (idx !! _); [|done].
  unfold band. by destruct (pd.eq_int v 1), (pd.eq_int v 0).
Qed.

Lemma recession_bands_first_axis idx flags :
  filter (λ c, plt.is_axvspan_on 0 c)
    (recession_bands (X:=X) [0; 1]%nat idx flags)
    = recession_bands [0]%nat idx flags.
Proof.
  unfold recession_bands. rewrite filter_join_imap.
  f_equal. apply imap_ext. intros i v _. apply row_band_first_axis.
Qed.

Lemma band_on_first_axis (a b : D) (v : V) :
  Forall (λ c, plt.is_axvspan_on 0 c) (band (X:=X) [0]%nat a b v).
Proof.
  unfold band. destruct (pd.eq_int v 1), (pd.eq_int v 0);
    repeat constructor.
Qed.

Lemma recession_bands_on_first_axis idx flags :
  Forall (λ c, plt.is_axvspan_on 0 c)
    (recession_bands (X:=X) [0]%nat idx flags).
Proof.
  apply Forall_join_imap. intros i v. unfold row_band.
  destruct (idx !! _); [|constructor].
  destruct (idx !! _); [|constructor].
  apply band_on_first_axis.
Qed.

Lemma head_recession_bands axes idx (v : V) flags (d0 dl : D) :
  head idx = Some d0 → last idx = Some dl →
  recession_bands (X:=X) axes idx (v :: flags)
    = band axes dl d0 v
      ++ mjoin (imap (λ i, row_band axes idx (S i)) flags).
Proof.
  intros Hd0 Hdl. unfold recession_bands. cbn [imap mjoin list_join].
  f_equal. unfold row_band. cbn [previous_row].
  rewrite Nat.sub_1_r, <- last_lookup, Hdl, <- head_lookup, Hd0. done.
Qed.
Lemma figure1_body_missing nber (i : Z) fig :
  pd.columns nber !! "USREC" = None →
  figure1_body nber i fig = (Raise (HostError (pd.KeyError "USREC")), fig).
Proof. intros Hcol. unfold figure1_body, pd.getcol. by rewrite Hcol. Qed.
End FigureLoops.


(** Runs a figure whose columns are known up to the calls it added. *)
Ltac run_figure loop :=
  cbv [mbind Plt_bind emit eval_];
  rewrite loop by done;
  cbv beta iota; rewrite <- !app_assoc;
  eexists; split; [reflexivity|].

Ltac not_shown :=
  repeat (apply not_elem_of_cons; split; [discriminate|]);
  apply not_elem_of_nil.

Section FigureClaims.
Context {D V X : Type} `{!pd.Ops D V}.
Implicit Types (nber gdp : pd.DataFrame D V) (fig : list (plt.call D V X)).
Implicit Types (idx : list D) (flags : list V) (axes : list nat).

(** X7. On a frame [nber] with a [USREC] column, [figure1] returns, and the
    bands it draws are, row by row and in this order: a gray band of
    opacity 0.2 on both axes when the flag is 1, a white band of opacity 1
    on both axes when it is 0, nothing otherwise; each band runs from the
    label of the row before (the last row for the first one) to the label
    of the row.  [plt.show] is the last call. *)
Theorem figure1_bands gdp nber (start end_ : X) flags fig :
  pd.wf nber →
  pd.columns nber !! "USREC" = Some flags →
  ∃ added,
    figure1 gdp nber start end_ fig = (Ok (), fig ++ added) ∧
    filter (λ c, plt.is_axvspan c) added
      = recession_bands [0; 1]%nat (pd.index nber) flags ∧
    last added = Some plt.show.
Proof.
  intros Hwf Hcol. unfold figure1. run_figure (figure1_loop (X:=X) nber flags).
  pose proof (bands_are_axvspan (X:=X) [0; 1]%nat (pd.index nber) flags) as Hb.
  remember (recession_bands [0; 1]%nat (pd.index nber) flags) as bands.
  split.
  - rewrite !filter_app, (filter_all _ bands Hb). cbn. by rewrite app_nil_r.
  - rewrite !last_app. reflexivity.
Qed.

(** X8. [figure2], given its three yield columns and a frame [nber] with a
    [USREC] column, returns, and draws the same bands on its one axes;
    [plt.show] is the last call. *)
Theorem figure2_bands yield_curves nber (start end_ : X) y1 y2 y3 flags fig :
  pd.columns yield_curves !! "10Y-3M" = Some y1 →
  pd.columns yield_curves !! "10Y-2Y" = Some y2 →
  pd.columns yield_curves !! "10Y-FFR" = Some y3 →
  pd.wf nber →
  pd.columns nber !! "USREC" = Some flags →
  ∃ added,
    figure2 yield_curves nber start end_ fig = (Ok (), fig ++ added) ∧
    filter (λ c, plt.is_axvspan c) added
      = recession_bands [0]%nat (pd.index nber) flags ∧
    last added = Some plt.show.
Proof.
  intros Hy1 Hy2 Hy3 Hwf Hcol. unfold figure2, pd.getcol.
  rewrite Hy1, Hy2, Hy3. run_figure (figure2_loop (X:=X) nber flags).
  pose proof (bands_are_axvspan (X:=X) [0]%nat (pd.index nber) flags) as Hb.
  remember (recession_bands [0]%nat (pd.index nber) flags) as bands.
  split.
  - rewrite !filter_app, (filter_all _ bands Hb). cbn. by rewrite app_nil_r.
  - rewrite !last_app. reflexivity.
Qed.

(** X9. The band of the first row wraps around: when the first flag is 1,
    the first band [figure1] draws runs from the last label of [nber] to
    its first. *)
Theorem figure1_first_band gdp nber (start end_ : X) v flags d0 dl fig :
  pd.wf nber →
  pd.columns nber !! "USREC" = Some (v :: flags) →
  head (pd.index nber) = Some d0 → last (pd.index nber) = Some dl →
  pd.eq_int v 1 = true →
  ∃ added,
    figure1 gdp nber start end_ fig = (Ok (), fig ++ added) ∧
    head (filter (λ c, plt.is_axvspan c) added)
      = Some (plt.axvspan 0 dl d0 (1 # 5) "gray").
Proof.
  intros Hwf Hcol Hd0 Hdl Hv. unfold figure1.
  run_figure (figure1_loop (X:=X) nber (v :: flags)).
  pose proof (bands_are_axvspan (X:=X) [0; 1]%nat (pd.index nber) (v :: flags))
    as Hb.
  rewrite !filter_app, (filter_all _ _ Hb).
  rewrite (head_recession_bands _ _ _ _ d0 dl) by done.
  unfold band. rewrite Hv. reflexivity.
Qed.

(** X10. [figure1] draws two bands for every row whose flag is 1 and two
    for every row whose flag is 0; rows with another flag get none. *)
Theorem figure1_band_count gdp nber (start end_ : X) flags fig :
  pd.wf nber →
  pd.columns nber !! "USREC" = Some flags →
  ∃ added,
    figure1 gdp nber start end_ fig = (Ok (), fig ++ added) ∧
    length (filter (λ c, plt.is_axvspan c) added)
      = (2 * (length (filter (λ v, pd.eq_int v 1) flags)
              + length (filter (λ v, pd.eq_int v 0) flags)))%nat.
Proof.
  intros Hwf Hcol. unfold figure1. run_figure (figure1_loop (X:=X) nber flags).
  pose proof (bands_are_axvspan (X:=X) [0; 1]%nat (pd.index nber) flags) as Hb.
  rewrite !filter_app, (filter_all _ _ Hb), !length_app.
  rewrite length_recession_bands by (by rewrite (Hwf _ _ Hcol)).
  cbn. repeat case_decide; try done; cbn [length]; lia.
Qed.

(** X11. A frame [nber] without rows is never asked for its [USREC]
    column: [figure1] returns whatever the columns are, draws no band and
    ends with [plt.show]. *)
Theorem figure1_no_rows gdp nber (start end_ : X) fig :
  pd.index nber = [] →
  ∃ added,
    figure1 gdp nber start end_ fig = (Ok (), fig ++ added) ∧
    filter (λ c, plt.is_axvspan c) added = [] ∧
    last added = Some plt.show.
Proof.
  intros Hidx. unfold figure1, pd.len. rewrite Hidx.
  change (range 0 (Z.of_nat (length (@nil D)))) with (@nil Z).
  cbv [mbind Plt_bind emit for_ mret Plt_ret]. rewrite <- !app_assoc.
  eexists. split; [reflexivity|]. split; reflexivity.
Qed.

(** X12. A frame [nber] with rows but no [USREC] column ends [figure1]
    with [KeyError('USREC')] at the first row.  The two panels have been
    drawn by then: what the call added to the figure is the twelve calls
    from [plt.subplots] to the title of panel (b), the plot of [gdp] and
    the plot of its growth among them, and nothing else, so no band and no
    [plt.show]; and it is the first row that raises, before it draws. *)
Theorem figure1_missing_flags gdp nber (start end_ : X) fig :
  pd.index nber ≠ [] →
  pd.columns nber !! "USREC" = None →
  ∃ added,
    figure1 gdp nber start end_ fig
      = (Raise (HostError (pd.KeyError "USREC")), fig ++ added) ∧
    added
      = [plt.subplots 2 (14, 7);
         plt.plot 0 (inl gdp) "GDP";
         plt.set_xlim 0 start end_;
         plt.grid 0 "y";
         plt.set_ylabel 0 "Billion of dollars";
         plt.set_title 0 "(a)";
         plt.plot 1 (inl (pd.times (pd.pct_change gdp) 100)) "GDP growth";
         plt.set_xlim 1 start end_;
         plt.grid 1 "y";
         plt.set_ylabel 1 "Percent %";
         plt.axhline 1 0 "black";
         plt.set_title 1 "(b)"] ∧
    (∀ fig',
       figure1_body (X:=X) nber 0 fig'
         = (Raise (HostError (pd.KeyError "USREC")), fig')) ∧
    filter (λ c, plt.is_axvspan c) added = [] ∧
    plt.show ∉ added.
Proof.
  intros Hidx Hcol. unfold figure1, pd.len, range.
  destruct (pd.index nber) as [|d idx] eqn:Hi; [done|].
  rewrite seqZ_cons by (cbn [length]; lia).
  cbn [for_]. cbv [mbind Plt_bind emit].
  rewrite figure1_body_missing by done. rewrite <- !app_assoc.
  eexists. split; [reflexivity|]. split; [reflexivity|].
  split; [intros fig'; by apply figure1_body_missing|].
  split; [reflexivity|]. not_shown.
Qed.

(** X13. [figure2] needs its three yield columns: the first one that is
    missing, in the order [10Y-3M], [10Y-2Y], [10Y-FFR], ends the call with
    its [KeyError] before any band is drawn and before [plt.show], whatever
    [nber] is. *)
Theorem figure2_missing_yield yield_curves nber (start end_ : X) fig :
  let missing c := pd.columns yield_curves !! c = None in
  ∀ c,
    (c = "10Y-3M" ∧ missing "10Y-3M") ∨
    (c = "10Y-2Y" ∧ ¬ missing "10Y-3M" ∧ missing "10Y-2Y") ∨
    (c = "10Y-FFR" ∧ ¬ missing "10Y-3M" ∧ ¬ missing "10Y-2Y"
       ∧ missing "10Y-FFR") →
    ∃ added,
      figure2 yield_curves nber start end_ fig
        = (Raise (HostError (pd.KeyError c)), fig ++ added) ∧
      filter (λ c, plt.is_axvspan c) added = [] ∧
      plt.show ∉ added.
Proof.
  intros missing c. unfold missing, figure2, pd.getcol.
  intros [[-> H1]|[[-> [H1 H2]]|[-> (H1 & H2 & H3)]]].
  - rewrite H1. cbv [mbind Plt_bind emit eval_].
    eexists. split; [reflexivity|]. split; [reflexivity|]. not_shown.
  - destruct (pd.columns yield_curves !! "10Y-3M"); [|done]. rewrite H2.
    cbv [mbind Plt_bind emit eval_]. rewrite <- !app_assoc.
    eexists. split; [reflexivity|]. split; [reflexivity|]. not_shown.
  - destruct (pd.columns yield_curves !! "10Y-3M"); [|done].
    destruct (pd.columns yield_curves !! "10Y-2Y"); [|done]. rewrite H3.
    cbv [mbind Plt_bind emit eval_]. rewrite <- !app_assoc.
    eexists. split; [reflexivity|]. split; [reflexivity|]. not_shown.
Qed.

(** X14. The two figures are shaded alike: on the same [nber], the bands
    [figure2] draws on its axes are the bands [figure1] draws on its first
    axes. *)
Theorem figures_shade_alike gdp yield_curves nber (start end_ : X)
    y1 y2 y3 flags fig1 fig2 :
  pd.columns yield_curves !! "10Y-3M" = Some y1 →
  pd.columns yield_curves !! "10Y-2Y" = Some y2 →
  pd.columns yield_curves !! "10Y-FFR" = Some y3 →
  pd.wf nber →
  pd.columns nber !! "USREC" = Some flags →
  ∃ added1 added2,
    figure1 gdp nber start end_ fig1 = (Ok (), fig1 ++ added1) ∧
    figure2 yield_curves nber start end_ fig2 = (Ok (), fig2 ++ added2) ∧
    filter (λ c, plt.is_axvspan_on 0 c) added1
      = filter (λ c, plt.is_axvspan c) added2.
Proof.
  intros Hy1 Hy2 Hy3 Hwf Hcol.
  unfold figure1, figure2, pd.getcol. rewrite Hy1, Hy2, Hy3.
  cbv [mbind Plt_bind emit eval_].
  rewrite (figure1_loop nber flags), (figure2_loop nber flags) by done.
  cbv beta iota. rewrite <- !app_assoc.
  eexists _, _. split; [reflexivity|]. split; [reflexivity|].
  pose proof (bands_are_axvspan (X:=X) [0]%nat (pd.index nber) flags) as Hb.
  rewrite !filter_app, recession_bands_first_axis, (filter_all _ _ Hb).
  reflexivity.
Qed.
End FigureClaims.

(** * The further properties on concrete inputs *)

Lemma capital_rebuilds_path_witness :
  capital (E:=exact.error) (1 # 5)%Q (1 # 5)%Q (1 # 50)%Q (1 # 20)%Q 1%Q 0%Q
    1%Q 2%Q 2 (1 # 50)%Q
  = Ok ([1; 115 # 104], [2; 105 # 52])%Q.
Proof.
  apply capital_rebuilds_path.
  - lia.
  - reflexivity.
  - reflexivity.
  - reflexivity.
  - reflexivity.
  - intros t Ht. assert (t = 1) as -> by lia.
    exists 1%Q, 2%Q, (115 # 104)%Q, (105 # 52)%Q.
    split_and!; vm_compute; reflexivity.
Defined.

Lemma capital_prefix_witness :
  exact.run 1%Q 2%Q 3
    = Ok ([1; 115 # 104; 13225 # 10816], [2; 105 # 52; 11125 # 5408])%Q ∧
  exact.run 1%Q 2%Q 2
    = Ok (take 2 [1; 115 # 104; 13225 # 10816],
          take 2 [2; 105 # 52; 11125 # 5408])%Q.
Proof.
  split; [vm_compute; reflexivity|].
  apply (capital_prefix (1 # 5)%Q (1 # 5)%Q (1 # 50)%Q (1 # 20)%Q 1%Q 0%Q
           1%Q 2%Q 2 3 (1 # 50)%Q).
  - vm_compute. reflexivity.
  - lia.
Defined.

(** With [s - delta = n + g] and [s_H·k = (delta + n + g)·h] the pair
    [(2, 2)] is a steady state. *)
Lemma capital_steady_state_witness :
  capital (E:=exact.error) (1 # 10)%Q (1 # 10)%Q (1 # 40)%Q (1 # 20)%Q 1%Q 0%Q
    2%Q 2%Q 4 (1 # 40)%Q
  = Ok (replicate 4 2, replicate 4 2)%Q.
Proof.
  apply (capital_steady_state (1 # 10)%Q (1 # 10)%Q (1 # 40)%Q (1 # 20)%Q
           1%Q 0%Q 2%Q 2%Q 4 (1 # 40)%Q).
  - vm_compute. reflexivity.
  - vm_compute. reflexivity.
  - lia.
Defined.

Lemma capital_restart_witness :
  exact.run 1%Q 2%Q 2 = Ok ([1; 115 # 104], [2; 105 # 52])%Q ∧
  exact.run (115 # 104)%Q (105 # 52)%Q 2
    = Ok ([115 # 104; 13225 # 10816], [105 # 52; 11125 # 5408])%Q ∧
  exact.run 1%Q 2%Q (2 + 2 - 1)
    = Ok ([1; 115 # 104] ++ drop 1 [115 # 104; 13225 # 10816],
          [2; 105 # 52] ++ drop 1 [105 # 52; 11125 # 5408])%Q.
Proof.
  split; [vm_compute; reflexivity|]. split; [vm_compute; reflexivity|].
  apply (capital_restart (1 # 5)%Q (1 # 5)%Q (1 # 50)%Q (1 # 20)%Q 1%Q 0%Q
           1%Q 2%Q (115 # 104)%Q (105 # 52)%Q 2 2 (1 # 50)%Q).
  - vm_compute. reflexivity.
  - reflexivity.
  - reflexivity.
  - vm_compute. reflexivity.
Defined.

(** Equal stocks stay equal under equal savings rates. *)
Lemma capital_invariant_witness :
  exact.run 1%Q 1%Q 3
    = Ok ([1; 115 # 104; 13225 # 10816], [1; 115 # 104; 13225 # 10816])%Q ∧
  (13225 # 10816)%Q = (13225 # 10816)%Q.
Proof.
  split; [vm_compute; reflexivity|].
  apply (capital_invariant (λ x y : Q, x = y)
           (1 # 5)%Q (1 # 5)%Q (1 # 50)%Q (1 # 20)%Q 1%Q 0%Q 1%Q 1%Q 3
           (1 # 50)%Q
           [1; 115 # 104; 13225 # 10816]%Q [1; 115 # 104; 13225 # 10816]%Q)
    with (i := 2%nat).
  - reflexivity.
  - intros x y x' y' -> Hx Hy. congruence.
  - vm_compute. reflexivity.
  - reflexivity.
  - reflexivity.
Defined.

Lemma frames_nber_wf : pd.wf frames.nber.
Proof.
  intros c vs Hc. unfold frames.nber in Hc. cbn [pd.columns] in Hc.
  apply lookup_singleton_Some in Hc as [<- <-]. reflexivity.
Defined.

(** The bands of the sample frame: the first runs from the last label to
    the first, the third row has none. *)
Example recession_bands_sample :
  recession_bands (X:=Z) [0; 1]%nat [10; 20; 30] [Some 1; Some 0; None]%Q
  = [plt.axvspan 0 30 10 (1 # 5) "gray"; plt.axvspan 1 30 10 (1 # 5) "gray";
     plt.axvspan 0 10 20 1 "white"; plt.axvspan 1 10 20 1 "white"].
Proof. reflexivity. Qed.

Lemma figure1_bands_witness :
  ∃ added,
    figure1 frames.gdp frames.nber 0 40 [] = (Ok (), [] ++ added) ∧
    filter (λ c, plt.is_axvspan c) added
      = recession_bands [0; 1]%nat [10; 20; 30] [Some 1; Some 0; None]%Q ∧
    last added = Some plt.show.
Proof.
  apply (figure1_bands frames.gdp frames.nber 0 40
           [Some 1; Some 0; None]%Q []).
  - exact frames_nber_wf.
  - reflexivity.
Defined.

Lemma figure2_bands_witness :
  ∃ added,
    figure2 frames.yield_curves frames.nber 0 40 [] = (Ok (), [] ++ added) ∧
    filter (λ c, plt.is_axvspan c) added
      = recession_bands [0]%nat [10; 20; 30] [Some 1; Some 0; None]%Q ∧
    last added = Some plt.show.
Proof.
  apply (figure2_bands frames.yield_curves frames.nber 0 40
           [Some 1; Some 2; Some 3]%Q [Some 1; Some 1; Some 1]%Q
           [Some 2; Some 1; Some 0]%Q [Some 1; Some 0; None]%Q []).
  - reflexivity.
  - reflexivity.
  - reflexivity.
  - exact frames_nber_wf.
  - reflexivity.
Defined.

Lemma figure1_first_band_witness :
  ∃ added,
    figure1 frames.gdp frames.nber 0 40 [] = (Ok (), [] ++ added) ∧
    head (filter (λ c, plt.is_axvspan c) added)
      = Some (plt.axvspan 0 30 10 (1 # 5) "gray").
Proof.
  apply (figure1_first_band frames.gdp frames.nber 0 40
           (Some 1%Q) [Some 0; None]%Q 10 30 []).
  - exact frames_nber_wf.
  - reflexivity.
  - reflexivity.
  - reflexivity.
  - reflexivity.
Defined.

Lemma figure1_band_count_witness :
  ∃ added,
    figure1 frames.gdp frames.nber 0 40 [] = (Ok (), [] ++ added) ∧
    length (filter (λ c, plt.is_axvspan c) added)
      = (2 * (length (filter (λ v, pd.eq_int v 1) [Some 1; Some 0; None]%Q)
              + length (filter (λ v, pd.eq_int v 0) [Some 1; Some 0; None]%Q)))%nat.
Proof.
  apply (figure1_band_count frames.gdp frames.nber 0 40
           [Some 1; Some 0; None]%Q []).
  - exact frames_nber_wf.
  - reflexivity.
Defined.

Lemma figure1_no_rows_witness :
  ∃ added,
    figure1 frames.gdp frames.no_rows 0 40 [] = (Ok (), [] ++ added) ∧
    filter (λ c, plt.is_axvspan c) added = [] ∧
    last added = Some plt.show.
Proof.
  apply (figure1_no_rows frames.gdp frames.no_rows 0 40 []).
  reflexivity.
Defined.

Lemma figure1_missing_flags_witness :
  ∃ added,
    figure1 frames.gdp frames.no_flags 0 40 []
      = (Raise (HostError (pd.KeyError "USREC")), [] ++ added) ∧
    added
      = [plt.subplots 2 (14, 7);
         plt.plot 0 (inl frames.gdp) "GDP";
         plt.set_xlim 0 0 40;
         plt.grid 0 "y";
         plt.set_ylabel 0 "Billion of dollars";
         plt.set_title 0 "(a)";
         plt.plot 1 (inl (pd.times (pd.pct_change frames.gdp) 100))
           "GDP growth";
         plt.set_xlim 1 0 40;
         plt.grid 1 "y";
         plt.set_ylabel 1 "Percent %";
         plt.axhline 1 0 "black";
         plt.set_title 1 "(b)"] ∧
    (∀ fig',
       figure1_body (X:=Z) frames.no_flags 0 fig'
         = (Raise (HostError (pd.KeyError "USREC")), fig')) ∧
    filter (λ c, plt.is_axvspan c) added = [] ∧
    plt.show ∉ added.
Proof.
  apply (figure1_missing_flags frames.gdp frames.no_flags 0 40 []).
  - discriminate.
  - reflexivity.
Defined.

(** The frame [gdp] has none of the yield columns. *)
Lemma figure2_missing_yield_witness :
  ∃ added,
    figure2 frames.gdp frames.nber 0 40 []
      = (Raise (HostError (pd.KeyError "10Y-3M")), [] ++ added) ∧
    filter (λ c, plt.is_axvspan c) added = [] ∧
    plt.show ∉ added.
Proof.
  apply (figure2_missing_yield frames.gdp frames.nber 0 40 [] "10Y-3M").
  left. split; reflexivity.
Defined.

Lemma figures_shade_alike_witness :
  ∃ added1 added2,
    figure1 frames.gdp frames.nber 0 40 [] = (Ok (), [] ++ added1) ∧
    figure2 frames.yield_curves frames.nber 0 40 [] = (Ok (), [] ++ added2) ∧
    filter (λ c, plt.is_axvspan_on 0 c) added1
      = filter (λ c, plt.is_axvspan c) added2.
Proof.
  apply (figures_shade_alike frames.gdp frames.yield_curves frames.nber 0 40
           [Some 1; Some 2; Some 3]%Q [Some 1; Some 1; Some 1]%Q
           [Some 2; Some 1; Some 0]%Q [Some 1; Some 0; None]%Q [] []).
  - reflexivity.
  - reflexivity.
  - reflexivity.
  - exact frames_nber_wf.
  - reflexivity.
Defined.
